(** * The qiskit tutorial notebooks: Wine dataset preparation and the VQC runs

    A shallow embedding of the code cells of the notebook
    "Variational Quantum Classifier Feature Map Comparison":
    the function [Wine] (cell 1), the set-up cell (cell 2) and the two
    [run_algorithm] cells (cells 3 and 4).

    Conventions of the embedding.
    - A float64 is a canonical rational [Qc]. In [Wine] and the cells
      arithmetic is exact: what is proved of them is which rows, sizes and
      calls, not rounded values. Where the values themselves are at stake,
      in the rescaling to (-1,+1), the code is modelled a second time with
      every operation rounded to binary64 ([Binary64], [MinMaxScaler64],
      [Wine_rescaling64]).
    - A 2-D numpy array is a list of rows; a 1-D array is a list.
    - A Python [dict] with string keys is a [gmap string _].
    - A Python exception is a value of [exn]; a cell is a computation in
      the monad [M], which threads the process-wide numpy generator and
      the trace of calls to the quantum library and to [print].
    - What the notebook imports and this repository does not define
      (the generator, the square root, PCA's singular vectors, the
      dataset table, [run_algorithm]) is a field of the class [Extern]. *)

From Stdlib Require Import ZArith QArith Qcanon Lqa Qround Qabs Qpower.
From stdpp Require Import base numbers list strings gmap fin_maps.

(** ** Python values, exceptions, dictionaries *)

Inductive exn := ValueError | IndexError | KeyError.

Inductive pyval :=
  | PNone
  | PInt (z : Z)
  | PFloat (q : Qc)
  | PStr (s : string).

Abbreviation row := (list Qc).
Abbreviation ndarray := (list (list Qc)).
(** class label -> array of feature vectors *)
Abbreviation Dataset := (gmap string (list (list Qc))).
Abbreviation Params := (gmap string (gmap string pyval)).
Abbreviation Result := (gmap string pyval).

(** qiskit.aqua.input.ClassificationInput(training_dataset, test_dataset) *)
Record ClassificationInput := {
  training_dataset : Dataset;
  test_dataset : Dataset
}.

Inductive event :=
  | RunAlgorithm (params : Params) (input : ClassificationInput)
  | Print (args : list pyval).

(** ** What the notebook imports *)

Class Extern := {
  (** numpy.random.RandomState: the generator's state *)
  RandomState : Type;
  (** RandomState(seed) *)
  RandomState_init : Z → RandomState;
  (** rng.permutation(n): the shuffled indices and the advanced state *)
  permutation : RandomState → nat → list nat * RandomState;
  (** numpy.sqrt on one value *)
  np_sqrt : Qc → Qc;
  (** the rows of components_ that PCA(n_components) computes on X with
      the exact ("full") solver; None when it raises ValueError *)
  pca_components_full : Z → ndarray → option ndarray;
  (** the same with the "randomized" solver, which draws from a generator *)
  pca_components_randomized :
    Z → ndarray → RandomState → option ndarray * RandomState;
  (** datasets.load_wine(True): (data, target) *)
  load_wine : ndarray * list nat;
  (** qiskit.aqua.run_algorithm(params, algo_input) *)
  run_algorithm :
    Params → ClassificationInput → RandomState → (exn + Result) * RandomState
}.

(** ** The monad of a notebook cell *)

Record World `{Extern} := {
  np_random : RandomState;   (* numpy's global generator *)
  trace : list event         (* oldest first *)
}.

Definition M `{Extern} (A : Type) : Type := World → (exn + A) * World.

#[global] Instance M_ret `{Extern} : MRet M := λ A x w, (inr x, w).
#[global] Instance M_bind `{Extern} : MBind M := λ A B f m w,
  match m w with
  | (inl e, w') => (inl e, w')
  | (inr x, w') => f x w'
  end.

Definition raise `{Extern} {A} (e : exn) : M A := λ w, (inl e, w).

Definition get_np_random `{Extern} : M RandomState :=
  λ w, (inr (np_random w), w).

Definition set_np_random `{Extern} (g : RandomState) : M unit :=
  λ w, (inr tt, {| np_random := g; trace := trace w |}).

Definition emit `{Extern} (e : event) : M unit :=
  λ w, (inr tt, {| np_random := np_random w; trace := trace w ++ [e] |}).

Definition of_option `{Extern} {A} (e : exn) (o : option A) : M A :=
  match o with Some x => mret x | None => raise e end.

(** ** numpy on lists

    The reductions below are applied to the columns of an array that
    check_array has accepted, so to non-empty lists; their value on the
    empty list (where numpy raises or gives nan) is never used. *)

Definition Qc_of_nat (n : nat) : Qc := Qc_of_Z (Z.of_nat n).

Definition Qcmin (x y : Qc) : Qc := if decide (x ≤ y)%Qc then x else y.
Definition Qcmax (x y : Qc) : Qc := if decide (x ≤ y)%Qc then y else x.

Definition np_sum (l : list Qc) : Qc := foldl Qcplus 0%Qc l.
Definition np_mean (l : list Qc) : Qc := (np_sum l / Qc_of_nat (length l))%Qc.
Definition np_var (l : list Qc) : Qc :=
  np_mean (fmap (λ x, (x - np_mean l) * (x - np_mean l))%Qc l).
Definition np_min (l : list Qc) : Qc :=
  match l with [] => 0%Qc | x :: l' => foldl Qcmin x l' end.
Definition np_max (l : list Qc) : Qc :=
  match l with [] => 0%Qc | x :: l' => foldl Qcmax x l' end.

(** X.shape[1] *)
Definition ncols (X : ndarray) : nat :=
  match X with [] => 0 | x :: _ => length x end.

(** X[:, j]; every row of a 2-D array has an entry j < X.shape[1] *)
Definition column (j : nat) (X : ndarray) : list Qc :=
  fmap (λ x, nth j x 0%Qc) X.

(** np.f(X, axis=0) *)
Definition axis0 (f : list Qc → Qc) (X : ndarray) : row :=
  fmap (λ j, f (column j X)) (seq 0 (ncols X)).

(** np.dot of two vectors *)
Definition dot (u v : row) : Qc := np_sum (zip_with Qcmult u v).

(** a[idx] for an index array: IndexError out of range *)
Definition take_rows {A} (X : list A) (idx : list nat) : option (list A) :=
  mapM (λ i, X !! i) idx.

(** X[mask, :] for a boolean mask. numpy raises IndexError when the mask
    and X differ in length; Wine indexes sample_train by a mask over
    label_train, which have the same length ([Wine_mask_lengths]). *)
Definition mask_rows {A} (X : list A) (mask : list bool) : list A :=
  fst <$> filter (λ p, snd p = true) (zip X mask).

(** l[start:stop] with Python's clamping of the bounds *)
Definition slice_bound (len : nat) (i : Z) : nat :=
  if decide (i < 0)%Z then Z.to_nat (Z.max 0 (Z.of_nat len + i))
  else Nat.min len (Z.to_nat i).

Definition py_slice {A} (l : list A) (start stop : Z) : list A :=
  let a := slice_bound (length l) start in
  let b := slice_bound (length l) stop in
  take (b - a) (drop a l).

Definition enumerate {A} (l : list A) : list (nat * A) :=
  zip (seq 0 (length l)) l.

(** {key: f k for k, key in pairs} *)
Definition dict_comprehension {V} (f : nat → V) (pairs : list (nat * string))
    : gmap string V :=
  foldl (λ d p, <[p.2 := f p.1]> d) ∅ pairs.

(** ** sklearn *)

(** sklearn.utils.check_array: at least one sample and one feature *)
Definition check_array `{Extern} (X : ndarray) : M unit :=
  match X with
  | [] => raise ValueError
  | x :: _ => if decide (length x = 0) then raise ValueError else mret tt
  end.

(** scale[scale == 0.0] = 1.0 *)
Definition handle_zeros_in_scale (scale : row) : row :=
  fmap (λ s, if decide (s = 0%Qc) then 1%Qc else s) scale.

Module StandardScaler.
Record t := { mean_ : row; var_ : row; scale_ : row }.

Definition fit `{Extern} (X : ndarray) : M t :=
  check_array X;;
  let mean := axis0 np_mean X in
  let var := axis0 np_var X in
  mret {| mean_ := mean; var_ := var;
          scale_ := handle_zeros_in_scale (fmap np_sqrt var) |}.

(** X -= mean_; X /= scale_. transform validates its argument as fit
    does; in Wine both splits are non-empty and have the columns of the
    fitted data, so only fit can raise. *)
Definition transform_row (sc : t) (x : row) : row :=
  zip_with Qcdiv (zip_with Qcminus x (mean_ sc)) (scale_ sc).

Definition transform (sc : t) (X : ndarray) : ndarray :=
  fmap (transform_row sc) X.
End StandardScaler.

Module PCA.
Record t := { components_ : ndarray; mean_ : row }.

(** svd_solver='auto': the exact solver unless the data is larger than
    500 in some dimension and 1 <= n_components < 0.8 * min(X.shape) *)
Definition solver_is_full (n_components : Z) (X : ndarray) : bool :=
  bool_decide (Nat.max (length X) (ncols X) ≤ 500) ||
  negb (bool_decide (1 ≤ n_components)%Z &&
        bool_decide (5 * n_components <
                     4 * Z.of_nat (Nat.min (length X) (ncols X)))%Z).

(** PCA(n_components=n).fit(X), random_state=None *)
Definition fit `{Extern} (n_components : Z) (X : ndarray) : M t :=
  check_array X;;
  components ←
    (if solver_is_full n_components X
     then of_option ValueError (pca_components_full n_components X)
     else
       g ← get_np_random;
       let r := pca_components_randomized n_components X g in
       set_np_random r.2;;
       of_option ValueError r.1);
  mret {| components_ := components; mean_ := axis0 np_mean X |}.

(** np.dot(X - mean_, components_.T) *)
Definition transform_row (p : t) (x : row) : row :=
  fmap (dot (zip_with Qcminus x (mean_ p))) (components_ p).

Definition transform (p : t) (X : ndarray) : ndarray :=
  fmap (transform_row p) X.
End PCA.

Module MinMaxScaler.
Record t := {
  feature_range : Qc * Qc;
  data_min_ : row;
  data_max_ : row;
  data_range_ : row;
  scale_ : row;
  min_ : row
}.

Definition fit `{Extern} (feature_range : Qc * Qc) (X : ndarray) : M t :=
  if decide (feature_range.2 ≤ feature_range.1)%Qc then raise ValueError
  else
    check_array X;;
    let data_min := axis0 np_min X in
    let data_max := axis0 np_max X in
    let data_range := zip_with Qcminus data_max data_min in
    let scale :=
      fmap (λ r, (feature_range.2 - feature_range.1) / r)%Qc
          (handle_zeros_in_scale data_range) in
    mret {| feature_range := feature_range;
            data_min_ := data_min; data_max_ := data_max;
            data_range_ := data_range; scale_ := scale;
            min_ := zip_with (λ m s, feature_range.1 - m * s)%Qc
                             data_min scale |}.

(** X *= scale_; X += min_ *)
Definition transform_row (mm : t) (x : row) : row :=
  zip_with Qcplus (zip_with Qcmult x (scale_ mm)) (min_ mm).

Definition transform (mm : t) (X : ndarray) : ndarray :=
  fmap (transform_row mm) X.
End MinMaxScaler.

(** *** sklearn.model_selection.train_test_split *)

(** check_random_state(seed) followed by rng.permutation(n): an int seed
    makes a private generator, None draws from numpy's global one *)
Definition shuffled_indices `{Extern} (random_state : option Z) (n : nat)
    : M (list nat) :=
  match random_state with
  | Some seed => mret (permutation (RandomState_init seed) n).1
  | None =>
      g ← get_np_random;
      let r := permutation g n in
      set_np_random r.2;;
      mret r.1
  end.

(** an int test_size is the absolute number of test samples; it must lie
    strictly between 0 and n_samples (releases before 0.21 let 0 through) *)
Definition validate_shuffle_split `{Extern} (n_samples : nat) (test_size : Z)
    : M (nat * nat) :=
  if decide (test_size ≤ 0 ∨ Z.of_nat n_samples ≤ test_size)%Z
  then raise ValueError
  else
    let n_test := Z.to_nat test_size in
    mret (n_samples - n_test, n_test).

(** ShuffleSplit: (ind_train, ind_test) *)
Definition shuffle_split `{Extern} (n_samples : nat) (test_size : Z)
    (random_state : option Z) : M (list nat * list nat) :=
  sizes ← validate_shuffle_split n_samples test_size;
  p ← shuffled_indices random_state n_samples;
  let ind_test := take sizes.2 p in
  let ind_train := take sizes.1 (drop sizes.2 p) in
  mret (ind_train, ind_test).

Definition train_test_split `{Extern} (X : ndarray) (y : list nat)
    (test_size : Z) (random_state : option Z)
    : M (ndarray * ndarray * list nat * list nat) :=
  if decide (length X = length y) then
    ind ← shuffle_split (length X) test_size random_state;
    X_train ← of_option IndexError (take_rows X ind.1);
    X_test ← of_option IndexError (take_rows X ind.2);
    y_train ← of_option IndexError (take_rows y ind.1);
    y_test ← of_option IndexError (take_rows y ind.2);
    mret (X_train, X_test, y_train, y_test)
  else raise ValueError.

(** ** Cell 1: the function Wine *)

Definition class_labels : list string := ["A"; "B"; "C"]%string.

(** The local variables of [Wine] when it returns. The source assigns
    [sample_train] and [sample_test] four times each: the suffixes 0, 1, 2
    name the values after the split, after standardisation and after PCA,
    the names without suffix the final ones. *)
Record Wine_locals := {
  data : ndarray;
  target : list nat;
  sample_train0 : ndarray;
  sample_test0 : ndarray;
  label_train : list nat;
  label_test : list nat;
  std_scale : StandardScaler.t;
  sample_train1 : ndarray;
  sample_test1 : ndarray;
  pca : PCA.t;
  sample_train2 : ndarray;
  sample_test2 : ndarray;
  samples : ndarray;
  minmax_scale : MinMaxScaler.t;
  sample_train : ndarray;
  sample_test : ndarray;
  training_input : Dataset;
  test_input : Dataset
}.

(** label == k, elementwise *)
Definition label_mask (labels : list nat) (k : nat) : list bool :=
  fmap (λ l, bool_decide (l = k)) labels.

(** The body of [Wine] from the standardisation on, as a function of the
    four arrays the split returned. *)
Definition Wine_after_split `{Extern} (training_size test_size n : Z)
    (data : ndarray) (target : list nat)
    (sample_train0 sample_test0 : ndarray) (label_train label_test : list nat)
    : M Wine_locals :=
  (* Now we standarize for gaussian around 0 with unit variance *)
  std_scale ← StandardScaler.fit sample_train0;
  let sample_train1 := StandardScaler.transform std_scale sample_train0 in
  let sample_test1 := StandardScaler.transform std_scale sample_test0 in
  (* Now reduce number of features to number of qubits *)
  pca ← PCA.fit n sample_train1;
  let sample_train2 := PCA.transform pca sample_train1 in
  let sample_test2 := PCA.transform pca sample_test1 in
  (* Scale to the range (-1,+1) *)
  let samples := sample_train2 ++ sample_test2 in
  minmax_scale ← MinMaxScaler.fit ((-1)%Qc, 1%Qc) samples;
  let sample_train := MinMaxScaler.transform minmax_scale sample_train2 in
  let sample_test := MinMaxScaler.transform minmax_scale sample_test2 in
  (* Pick training size number of samples from each distro *)
  let training_input :=
    dict_comprehension
      (λ k, py_slice (mask_rows sample_train (label_mask label_train k))
                     0 training_size)
      (enumerate class_labels) in
  let test_input :=
    dict_comprehension
      (λ k, py_slice (mask_rows sample_train (label_mask label_train k))
                     training_size (training_size + test_size))
      (enumerate class_labels) in
  mret {| data := data; target := target;
          sample_train0 := sample_train0; sample_test0 := sample_test0;
          label_train := label_train; label_test := label_test;
          std_scale := std_scale;
          sample_train1 := sample_train1; sample_test1 := sample_test1;
          pca := pca;
          sample_train2 := sample_train2; sample_test2 := sample_test2;
          samples := samples; minmax_scale := minmax_scale;
          sample_train := sample_train; sample_test := sample_test;
          training_input := training_input; test_input := test_input |}.

Definition Wine_body `{Extern} (training_size test_size n : Z)
    : M Wine_locals :=
  let data := load_wine.1 in
  let target := load_wine.2 in
  split ← train_test_split data target test_size (Some 7%Z);
  Wine_after_split training_size test_size n data target
    split.1.1.1 split.1.1.2 split.1.2 split.2.

(** return sample_train, training_input, test_input, class_labels *)
Definition Wine `{Extern} (training_size test_size n : Z)
    : M (ndarray * Dataset * Dataset * list string) :=
  L ← Wine_body training_size test_size n;
  mret (sample_train L, training_input L, test_input L, class_labels).

(** ** Binary64 arithmetic *)

(** A finite binary64 number is the rational it denotes. [round] is
    rounding to nearest, ties to even: 53 significant bits, the subnormal
    numbers being the multiples of 2^-1074. A result of magnitude 2^1024
    or more overflows: [None], where numpy goes on with an infinity. The
    sign of zero is not kept. An arithmetic operation is the exact
    operation followed by [round]; dividing by zero gives [None]. *)
Module Binary64.
Definition pow2 (k : Z) : Q := (2 ^ k)%Q.

(** the e with 2^e <= |q| < 2^(e+1), for q other than 0 *)
Definition exponent (q : Q) : Z :=
  let e0 := (Z.log2 (Z.abs (Qnum q)) - Z.log2 (Zpos (Qden q)))%Z in
  if Qle_bool (pow2 e0) (Qabs q) then e0 else (e0 - 1)%Z.

(** the nearest integer, the even one of two that are as near *)
Definition nearest_even (z : Q) : Z :=
  let f := Qfloor z in
  match (z - inject_Z f ?= 1 # 2)%Q with
  | Lt => f
  | Gt => (f + 1)%Z
  | Eq => if Z.even f then f else (f + 1)%Z
  end.

(** the exponent of the unit in the last place of q *)
Definition ulp_exponent (q : Q) : Z := Z.max (exponent q - 52) (-1074).

Definition round (q : Qc) : option Qc :=
  let k := ulp_exponent q in
  let r := (inject_Z (nearest_even (q / pow2 k)) * pow2 k)%Q in
  if Qle_bool (pow2 1024) (Qabs r) then None else Some (Q2Qc r).

Definition add (x y : Qc) : option Qc := round (x + y).
Definition sub (x y : Qc) : option Qc := round (x - y).
Definition mul (x y : Qc) : option Qc := round (x * y).
Definition div (x y : Qc) : option Qc :=
  if decide (y = 0%Qc) then None else round (x / y).
End Binary64.

(** the unit roundoff 2^-53, and the same written out *)
Definition u64 : Qc := Q2Qc (Binary64.pow2 (-53)).
Definition u53 : Q := 1 # 9007199254740992.

(** 2^1024, above every finite binary64 number *)
Definition huge64 : Qc := Q2Qc (Binary64.pow2 1024).

(** *** sklearn.preprocessing.MinMaxScaler in binary64 *)

(** The code of [MinMaxScaler] with every arithmetic operation rounded.
    [None]: the exact model raises, or an operation overflows. The minimum
    and the maximum of binary64 numbers are exact. *)
Module MinMaxScaler64.
(** MinMaxScaler(feature_range).fit(X) in binary64 *)
Definition fit (feature_range : Qc * Qc) (X : ndarray)
    : option MinMaxScaler.t :=
  if decide (feature_range.2 ≤ feature_range.1)%Qc then None
  else
    match X with
    | [] => None
    | x :: _ =>
        if decide (length x = 0) then None
        else
          let data_min := axis0 np_min X in
          let data_max := axis0 np_max X in
          data_range ←
            mapM (λ p, Binary64.sub p.1 p.2) (zip data_max data_min);
          width ← Binary64.sub feature_range.2 feature_range.1;
          scale ←
            mapM (Binary64.div width) (handle_zeros_in_scale data_range);
          min_ ←
            mapM (λ p, Binary64.mul p.1 p.2 ≫= Binary64.sub feature_range.1)
                 (zip data_min scale);
          Some {| MinMaxScaler.feature_range := feature_range;
                  MinMaxScaler.data_min_ := data_min;
                  MinMaxScaler.data_max_ := data_max;
                  MinMaxScaler.data_range_ := data_range;
                  MinMaxScaler.scale_ := scale;
                  MinMaxScaler.min_ := min_ |}
    end.

(** X *= scale_; X += min_ *)
Definition transform_row (mm : MinMaxScaler.t) (x : row) : option row :=
  mapM (λ p, Binary64.mul p.1.1 p.1.2 ≫= λ q, Binary64.add q p.2)
       (zip (zip x (MinMaxScaler.scale_ mm)) (MinMaxScaler.min_ mm)).

Definition transform (mm : MinMaxScaler.t) (X : ndarray) : option ndarray :=
  mapM (transform_row mm) X.
End MinMaxScaler64.

(** The body of Wine from the rescaling on (the comment "Scale to the range
    (-1,+1)" to the return), in binary64, as a function of the two arrays
    PCA returned and of label_train. *)
Definition Wine_rescaling64 (training_size test_size : Z)
    (sample_train2 sample_test2 : ndarray) (label_train : list nat)
    : option (ndarray * Dataset * Dataset) :=
  let samples := sample_train2 ++ sample_test2 in
  minmax_scale ← MinMaxScaler64.fit ((-1)%Qc, 1%Qc) samples;
  sample_train ← MinMaxScaler64.transform minmax_scale sample_train2;
  sample_test ← MinMaxScaler64.transform minmax_scale sample_test2;
  let training_input :=
    dict_comprehension
      (λ k, py_slice (mask_rows sample_train (label_mask label_train k))
                     0 training_size)
      (enumerate class_labels) in
  let test_input :=
    dict_comprehension
      (λ k, py_slice (mask_rows sample_train (label_mask label_train k))
                     training_size (training_size + test_size))
      (enumerate class_labels) in
  Some (sample_train, training_input, test_input).

(** ** Cells 2 to 4 *)

Definition feature_dim : Z := 4.
Definition training_dataset_size : Z := 20.
Definition testing_dataset_size : Z := 10.
Definition random_seed : Z := 10598.

(** np.random.seed(seed) *)
Definition np_random_seed `{Extern} (seed : Z) : M unit :=
  set_np_random (RandomState_init seed).

Definition params0 : Params :=
  {[ "problem" := {[ "name" := PStr "classification";
                     "random_seed" := PInt random_seed ]};
     "algorithm" := {[ "name" := PStr "VQC" ]};
     "backend" := {[ "provider" := PStr "qiskit.BasicAer";
                     "name" := PStr "statevector_simulator" ]};
     "optimizer" := {[ "name" := PStr "COBYLA"; "maxiter" := PInt 200 ]};
     "variational_form" := {[ "name" := PStr "RYRZ"; "depth" := PInt 3 ]};
     "feature_map" := {[ "name" := PNone ]} ]}%string.

(** d[k1][k2] = v on a dict of dicts, updated in place *)
Definition setitem2 `{Extern} (d : Params) (k1 k2 : string) (v : pyval)
    : M Params :=
  inner ← of_option KeyError (d !! k1);
  mret (<[k1 := <[k2 := v]> inner]> d).

(** d[k] *)
Definition getitem `{Extern} {V} (d : gmap string V) (k : string) : M V :=
  of_option KeyError (d !! k).

Definition call_run_algorithm `{Extern} (params : Params)
    (input : ClassificationInput) : M Result := λ w,
  let r := run_algorithm params input (np_random w) in
  (r.1, {| np_random := r.2;
           trace := trace w ++ [RunAlgorithm params input] |}).

Definition py_print `{Extern} (args : list pyval) : M unit :=
  emit (Print args).

Definition cell2 `{Extern} : M (ClassificationInput * Params) :=
  np_random_seed random_seed;;
  r ← Wine training_dataset_size testing_dataset_size feature_dim;
  let training_input := r.1.1.2 in
  let test_input := r.1.2 in
  let classification_input :=
    {| training_dataset := training_input; test_dataset := test_input |} in
  mret (classification_input, params0).

Definition cell3 `{Extern} (classification_input : ClassificationInput)
    (params : Params) : M Params :=
  params ← setitem2 params "feature_map" "name" (PStr "RawFeatureVector");
  result ← call_run_algorithm params classification_input;
  acc ← getitem result "testing_accuracy";
  py_print [PStr "VQC accuracy with RawFeatureVector: "; acc];;
  mret params.

Definition cell4 `{Extern} (classification_input : ClassificationInput)
    (params : Params) : M Params :=
  params ← setitem2 params "feature_map" "name" (PStr "SecondOrderExpansion");
  result ← call_run_algorithm params classification_input;
  acc ← getitem result "testing_accuracy";
  py_print [PStr "Test accuracy with SecondOrderExpansion: "; acc];;
  mret params.

Definition notebook `{Extern} : M unit :=
  st ← cell2;
  params ← cell3 st.1 st.2;
  params ← cell4 st.1 params;
  mret tt.

(** ** Vocabulary of the statements *)

(** The index arrays (ind_train, ind_test) that [train_test_split] draws
    for the dataset, with its private generator seeded by 7. *)
Definition split_indices `{Extern} (test_size : Z) : list nat * list nat :=
  let n_samples := length load_wine.1 in
  let n_test := Z.to_nat test_size in
  let p := (permutation (RandomState_init 7) n_samples).1 in
  (take (n_samples - n_test) (drop n_test p), take n_test p).

(** The rows of the base dataset that are in the training split and carry
    label k, in the order of the training split. *)
Definition class_rows `{Extern} (test_size : Z) (k : nat) : list nat :=
  filter (λ i, load_wine.2 !! i = Some k) (split_indices test_size).1.

(** The rows of the base dataset behind training_input[k] and test_input[k] *)
Definition training_rows `{Extern} (training_size test_size : Z) (k : nat)
    : list nat :=
  py_slice (class_rows test_size k) 0 training_size.

Definition test_rows `{Extern} (training_size test_size : Z) (k : nat)
    : list nat :=
  py_slice (class_rows test_size k) training_size (training_size + test_size).

(** What the three fitted transforms do to one row of the base dataset *)
Definition row_pipeline (L : Wine_locals) (x : row) : row :=
  MinMaxScaler.transform_row (minmax_scale L)
    (PCA.transform_row (pca L)
      (StandardScaler.transform_row (std_scale L) x)).

(** base_rows idx: the rows of the base dataset at the indices idx *)
Definition base_rows `{Extern} (idx : list nat) : ndarray :=
  fmap (λ i, nth i load_wine.1 []) idx.

(** A list of rows that is a 2-D array with d columns *)
Definition rectangular (d : nat) (X : ndarray) : Prop :=
  Forall (λ x, length x = d) X.

(** Every value of every vector of a dataset lies in [lo, hi] *)
Definition dataset_within (lo hi : Qc) (d : Dataset) : Prop :=
  ∀ key X x v, d !! key = Some X → x ∈ X → v ∈ x → (lo ≤ v ∧ v ≤ hi)%Qc.

(** A computation that neither reads nor writes the world: it gives the
    same outcome in every world and leaves the world as it was. *)
Definition pure `{Extern} {A} (m : M A) : Prop :=
  ∃ r, ∀ w, m w = (r, w).

(** A computation that reads and writes nothing of the world but numpy's
    global generator. *)
Definition rng_only `{Extern} {A} (m : M A) : Prop :=
  ∀ w1 w2, np_random w1 = np_random w2 →
    (m w1).1 = (m w2).1 ∧ np_random (m w1).2 = np_random (m w2).2.

(** The configuration of cell 2 with the feature map named *)
Definition with_feature_map (name : string) : Params :=
  <["feature_map"%string := {[ "name"%string := PStr name ]}]> params0.

(** The number of vectors of a dataset, over all its classes *)
Definition n_vectors (d : Dataset) : nat :=
  map_fold (λ _ X acc, length X + acc) 0 d.

(** Both partitions of L hold exactly the requested number of vectors of
    each class, every vector has n features, each vector is the transform
    of its own row of the table, and the partitions do not overlap: no row
    of the table feeds both and, when the rows of sample_train are pairwise
    distinct, no vector is in both. *)
Definition exact_partitions `{Extern} (training_size test_size n : Z)
    (L : Wine_locals) : Prop :=
  ∀ k key, (k, key) ∈ enumerate class_labels →
    ∃ Xtr Xte,
      training_input L !! key = Some Xtr ∧
      test_input L !! key = Some Xte ∧
      length Xtr = Z.to_nat training_size ∧
      length Xte = Z.to_nat test_size ∧
      rectangular (Z.to_nat n) Xtr ∧
      rectangular (Z.to_nat n) Xte ∧
      Xtr = row_pipeline L
              <$> base_rows (training_rows training_size test_size k) ∧
      Xte = row_pipeline L
              <$> base_rows (test_rows training_size test_size k) ∧
      (∀ k' i, i ∈ training_rows training_size test_size k →
               i ∉ test_rows training_size test_size k') ∧
      (NoDup (sample_train L) →
       ∀ key' Xte' x, test_input L !! key' = Some Xte' →
                      x ∈ Xtr → x ∉ Xte').

(** What a run of the body of Wine that returns L says about the local
    variables, in the order of the source. *)
Record After_split_post `{Extern} (training_size test_size n : Z)
    (w w' : World) (L : Wine_locals) : Prop := {
  post_std :
    StandardScaler.fit (sample_train0 L) w = (inr (std_scale L), w);
  post_train1 :
    sample_train1 L = StandardScaler.transform (std_scale L) (sample_train0 L);
  post_test1 :
    sample_test1 L = StandardScaler.transform (std_scale L) (sample_test0 L);
  post_pca : PCA.fit n (sample_train1 L) w = (inr (pca L), w');
  post_train2 : sample_train2 L = PCA.transform (pca L) (sample_train1 L);
  post_test2 : sample_test2 L = PCA.transform (pca L) (sample_test1 L);
  post_samples : samples L = sample_train2 L ++ sample_test2 L;
  post_minmax :
    MinMaxScaler.fit ((-1)%Qc, 1%Qc) (samples L) w'
    = (inr (minmax_scale L), w');
  post_train :
    sample_train L = MinMaxScaler.transform (minmax_scale L) (sample_train2 L);
  post_test :
    sample_test L = MinMaxScaler.transform (minmax_scale L) (sample_test2 L);
  post_training_input :
    training_input L =
    dict_comprehension
      (λ k, py_slice (mask_rows (sample_train L)
                        (label_mask (label_train L) k)) 0 training_size)
      (enumerate class_labels);
  post_test_input :
    test_input L =
    dict_comprehension
      (λ k, py_slice (mask_rows (sample_train L)
                        (label_mask (label_train L) k))
              training_size (training_size + test_size))
      (enumerate class_labels)
}.

Record Wine_post `{Extern} (training_size test_size n : Z)
    (w w' : World) (L : Wine_locals) : Prop := {
  post_data : data L = load_wine.1;
  post_target : target L = load_wine.2;
  post_lengths : length load_wine.1 = length load_wine.2;
  post_test_size : (0 < test_size < Z.of_nat (length load_wine.1))%Z;
  post_train0 :
    take_rows load_wine.1 (split_indices test_size).1
    = Some (sample_train0 L);
  post_test0 :
    take_rows load_wine.1 (split_indices test_size).2
    = Some (sample_test0 L);
  post_label_train :
    take_rows load_wine.2 (split_indices test_size).1
    = Some (label_train L);
  post_label_test :
    take_rows load_wine.2 (split_indices test_size).2
    = Some (label_test L);
  post_after : After_split_post training_size test_size n w w' L
}.

(** The documented behaviour of the imported functions that the
    statements rely on. *)
Class ExternOk `{Extern} : Prop := {
  (** rng.permutation(n) is a permutation of range(n) *)
  permutation_ok : ∀ g n, (permutation g n).1 ≡ₚ seq 0 n;
  (** the exact solver accepts 1 <= n_components <= min(X.shape) *)
  pca_full_succeeds : ∀ n X,
    (1 ≤ n ≤ Z.of_nat (Nat.min (length X) (ncols X)))%Z →
    is_Some (pca_components_full n X);
  (** components_ has n_components rows *)
  pca_full_shape : ∀ n X C,
    pca_components_full n X = Some C → length C = Z.to_nat n
}.

(** The shape of the dataset load_wine returns: 178 samples of 13
    features, the classes stored one after the other with 59, 71 and 48
    samples. *)
Definition wine_target : list nat :=
  replicate 59 0 ++ replicate 71 1 ++ replicate 48 2.

Record wine_shaped `{Extern} : Prop := {
  wine_samples : length load_wine.1 = 178;
  wine_features : Forall (λ x, length x = 13) load_wine.1;
  wine_classes : load_wine.2 = wine_target
}.

(** ** A concrete environment to run the cells on *)

Module Toy.
(** exact on the squares of rationals *)
Definition sqrt (q : Qc) : Qc :=
  Q2Qc (Z.sqrt (Qnum q) # Pos.sqrt (Qden q)).

Definition unit_vector (d i : nat) : row :=
  fmap (λ j, if decide (i = j) then 1%Qc else 0%Qc) (seq 0 d).

(** the first n coordinate axes as components *)
Definition components (n : Z) (X : ndarray) : option ndarray :=
  if decide (1 ≤ n ≤ Z.of_nat (Nat.min (length X) (ncols X)))%Z
  then Some (fmap (unit_vector (ncols X)) (seq 0 (Z.to_nat n)))
  else None.

(** a table with the shape of the wine dataset *)
Definition feature (i j : nat) : Qc :=
  match j with
  | 0 => Qc_of_nat i
  | _ => Qc_of_nat ((i * (j + 2) + j * j) `mod` (19 + j))
  end.

Definition table : ndarray :=
  fmap (λ i, fmap (feature i) (seq 0 13)) (seq 0 178).

Definition accuracy (params : Params) : Qc :=
  match params !! "feature_map"%string with
  | Some fm =>
      match fm !! "name"%string with
      | Some (PStr "RawFeatureVector") => (Qc_of_Z 13 / Qc_of_Z 15)%Qc
      | _ => (Qc_of_Z 8 / Qc_of_Z 15)%Qc
      end
  | None => 0%Qc
  end.

Definition env : Extern := {|
  RandomState := nat;
  RandomState_init := λ seed, Z.to_nat seed;
  permutation := λ g n, (reverse (seq 0 n), S g);
  np_sqrt := sqrt;
  pca_components_full := components;
  pca_components_randomized := λ n X g, (components n X, S g);
  load_wine := (table, wine_target);
  run_algorithm := λ params input g,
    (inr {[ "testing_accuracy"%string := PFloat (accuracy params) ]}, S g)
|}.

Definition world0 : @World env :=
  {| np_random := (0 : @RandomState env); trace := [] |}.
End Toy.


(** ** Variants of the concrete environment *)

Module ToyRuns.
(** The concrete environment with another table and another run_algorithm *)
Definition with_run (tbl : ndarray * list nat)
    (ra : Params → ClassificationInput → nat → (exn + Result) * nat)
    : Extern := {|
  RandomState := nat;
  RandomState_init := λ seed, Z.to_nat seed;
  permutation := λ g n, (reverse (seq 0 n), S g);
  np_sqrt := Toy.sqrt;
  pca_components_full := Toy.components;
  pca_components_randomized := λ n X g, (Toy.components n X, S g);
  load_wine := tbl;
  run_algorithm := ra
|}.

(** a run that returns a record without the key testing_accuracy *)
Definition no_accuracy (params : Params) (input : ClassificationInput)
    (g : nat) : (exn + Result) * nat :=
  (inr {[ "training_loss"%string := PFloat 1 ]}, S g).

(** a run that succeeds for RawFeatureVector and raises otherwise *)
Definition raw_only (params : Params) (input : ClassificationInput)
    (g : nat) : (exn + Result) * nat :=
  match params !! "feature_map"%string with
  | Some fm =>
      match fm !! "name"%string with
      | Some (PStr "RawFeatureVector") =>
          (inr {[ "testing_accuracy"%string := PFloat 1 ]}, S g)
      | _ => (inl ValueError, S g)
      end
  | None => (inl KeyError, S g)
  end.

(** a table of five samples: too few for a test split of ten *)
Definition short_table : ndarray * list nat :=
  (take 5 Toy.table, take 5 wine_target).

(** a table of 502 samples with two features: more rows than the 500 up to
    which PCA's svd_solver='auto' takes the exact solver *)
Definition tall_table : ndarray * list nat :=
  ((λ i, [Toy.feature i 0; Toy.feature i 1]) <$> seq 0 502,
   (λ i, i `mod` 3) <$> seq 0 502).

(** an environment on the tall table whose randomized PCA solver depends on
    the generator it draws from: an even state gives the first coordinate
    axis, an odd state the second *)
Definition random_pca : Extern := {|
  RandomState := nat;
  RandomState_init := λ seed, Z.to_nat seed;
  permutation := λ g n, (reverse (seq 0 n), S g);
  np_sqrt := Toy.sqrt;
  pca_components_full := Toy.components;
  pca_components_randomized := λ n X g,
    (Some [Toy.unit_vector (ncols X) (g `mod` 2)], S g);
  load_wine := tall_table;
  run_algorithm := no_accuracy
|}.
End ToyRuns.

(** A computation that writes nothing to the trace: it prints nothing and
    makes no call to the quantum library, whatever its outcome. *)
Definition silent `{Extern} {A} (m : M A) : Prop :=
  ∀ w, trace (m w).2 = trace w.

(** The first row of the sample_train array a call of Wine returned *)
Definition first_vector
    (o : exn + ndarray * Dataset * Dataset * list string) : option row :=
  match o with
  | inr r => head r.1.1.1
  | inl _ => None
  end.

(** The world in which cell 2 calls Wine *)
Definition seeded `{Extern} (w : World) : World :=
  {| np_random := RandomState_init random_seed; trace := trace w |}.

(** The classification input cell 2 builds from what Wine returned *)
Definition input_of (r : ndarray * Dataset * Dataset * list string)
    : ClassificationInput :=
  {| training_dataset := r.1.1.2; test_dataset := r.1.2 |}.

(** How a run ends for the cell that made it: the exception it raised, a
    KeyError when its record has no testing_accuracy, or the accuracy. *)
Definition run_outcome (o : exn + Result) : exn + pyval :=
  match o with
  | inl e => inl e
  | inr res =>
      match res !! "testing_accuracy"%string with
      | Some acc => inr acc
      | None => inl KeyError
      end
  end.

(** * qiskit/chemistry/declarative_approach.ipynb *)

(** The notebook's code cells are a straight-line script over two library
    objects, the Aer provider and a QiskitChemistry solver.  The library is
    a parameter: a call either raises or returns.  The values of the result
    dictionary are the library's own; the script only formats them
    ([str], what [format] with an empty specification and [print] both
    use) and iterates over one of them ([iter], [None] for a value that is
    not iterable). *)
Module Chemistry.

Inductive error := KeyError | TypeError | Raised (name : string).

Abbreviation Config := (gmap string (gmap string string)).

Class Lib := {
  Backend : Type;
  value : Type;
  (** Aer.get_backend(name) *)
  get_backend : string → error + Backend;
  (** QiskitChemistry().run(config, backend=backend) *)
  run : Config → Backend → error + gmap string value;
  str : value → string;
  iter : value → option (list value)
}.

Inductive event `{Lib} :=
| GetBackend (name : string)
| Run (config : Config) (backend : Backend)
| Print (line : string).

(** A computation returns or raises, and leaves the calls and prints it
    made, in order. *)
Definition M `{Lib} (A : Type) : Type := (error + A) * list event.

#[global] Instance M_ret `{Lib} : MRet M := λ A x, (inr x, []).
#[global] Instance M_bind `{Lib} : MBind M := λ A B f m,
  match m with
  | (inl e, t) => (inl e, t)
  | (inr x, t) => let r := f x in (r.1, t ++ r.2)
  end.

Definition call `{Lib} {A} (e : event) (r : error + A) : M A := (r, [e]).

Definition print `{Lib} (line : string) : M unit := (inr (), [Print line]).

Definition getitem `{Lib} {V} (d : gmap string V) (k : string) : M V :=
  match d !! k with
  | Some v => mret v
  | None => (inl KeyError, [])
  end.

Definition for_in `{Lib} (v : value) (body : value → M unit) : M unit :=
  match iter v with
  | Some l => foldr (λ x rest, body x;; rest) (mret ()) l
  | None => (inl TypeError, [])
  end.

Definition qiskit_chemistry_dict : Config :=
  {[ "driver" := {[ "name" := "HDF5" ]};
     "HDF5" := {[ "hdf5_input" := "H2/0.7_sto-3g.hdf5" ]};
     "operator" := {[ "name" := "hamiltonian" ]};
     "algorithm" := {[ "name" := "VQE" ]};
     "optimizer" := {[ "name" := "COBYLA" ]};
     "variational_form" := {[ "name" := "UCCSD" ]};
     "initial_state" := {[ "name" := "HartreeFock" ]} ]}%string.

Definition cell_backend `{Lib} : M Backend :=
  call (GetBackend "statevector_simulator")
    (get_backend "statevector_simulator").

Definition cell_run `{Lib} (backend : Backend) : M (gmap string value) :=
  call (Run qiskit_chemistry_dict backend)
    (run qiskit_chemistry_dict backend).

Definition cell_energy `{Lib} (result : gmap string value) : M unit :=
  energy ← getitem result "energy";
  print ("Ground state energy: " +:+ str energy).

Definition cell_printable `{Lib} (result : gmap string value) : M unit :=
  printable ← getitem result "printable";
  for_in printable (λ line, print (str line)).

Definition notebook `{Lib} : M unit :=
  backend ← cell_backend;
  result ← cell_run backend;
  cell_energy result;;
  cell_printable result.

(** A library for examples: a value is a number, given by its text, a
    text or a list of texts, and the solver returns what it is given. *)
Inductive toy_value := VFloat (text : string) | VStr (s : string)
                     | VList (l : list string).

Definition toy (result : error + gmap string toy_value) : Lib := {|
  Backend := string;
  value := toy_value;
  get_backend := λ name, inr name;
  run := λ _ _, result;
  str := λ v, match v with
              | VFloat text => text
              | VStr s => s
              | VList l => "[...]"
              end;
  iter := λ v, match v with
               | VFloat _ => None
               | VStr s => Some ((λ c, VStr (String c "")) <$> String.list_ascii_of_string s)
               | VList l => Some (VStr <$> l)
               end
|}.

End Chemistry.

(** * Proofs *)

(** ** The cell monad *)

Section monad_lemmas.
Context `{Extern}.

Lemma bind_inr {A B} (m : M A) (f : A → M B) w y w' :
  (m ≫= f) w = (inr y, w') →
  ∃ x w1, m w = (inr x, w1) ∧ f x w1 = (inr y, w').
Proof.
  unfold mbind, M_bind. destruct (m w) as [[e|x] w1]; [done|]. eauto.
Qed.

Lemma bind_run {A B} (m : M A) (f : A → M B) w x w1 :
  m w = (inr x, w1) → (m ≫= f) w = f x w1.
Proof. unfold mbind, M_bind. by intros ->. Qed.

Lemma ret_inr {A} (x y : A) w w' :
  mret (M:=M) x w = (inr y, w') → x = y ∧ w' = w.
Proof. unfold mret, M_ret. by intros [= -> ->]. Qed.

Lemma of_option_inr {A} e (o : option A) w y w' :
  of_option e o w = (inr y, w') → o = Some y ∧ w' = w.
Proof. destruct o; [|done]. by intros [-> ->]%ret_inr. Qed.

Lemma of_option_run {A} e (o : option A) w y :
  o = Some y → of_option e o w = (inr y, w).
Proof. by intros ->. Qed.

Lemma check_array_inr X w u w' :
  check_array X w = (inr u, w') → X ≠ [] ∧ 0 < ncols X ∧ w' = w.
Proof.
  destruct X as [|x X]; [done|]. simpl. case_decide; [done|].
  intros [_ ->]%ret_inr. split_and!; [done|lia|done].
Qed.

Lemma check_array_run X w :
  X ≠ [] → 0 < ncols X → check_array X w = (inr tt, w).
Proof.
  destruct X as [|x X]; [done|]. simpl. intros _ ?.
  case_decide; [lia|done].
Qed.
End monad_lemmas.

(** ** Exact arithmetic *)

Lemma Qc_eq_Qeq (x y : Qc) : x = y ↔ (x == y)%Q.
Proof. split; [intros ->; reflexivity | apply Qc_is_canon]. Qed.

(** Moves a goal on [Qc] to [Q], where [lra] and [nra] work. *)
Ltac qc_to_q :=
  repeat match goal with
  | H : @eq Qc _ _ |- _ => apply Qc_eq_Qeq in H
  | H : ¬ @eq Qc _ _ |- _ => rewrite Qc_eq_Qeq in H
  | |- @eq Qc _ _ => apply Qc_is_canon
  end;
  unfold Qcle, Qclt, Qcdiv, Qcminus, Qcinv, Qcopp, Qcmult, Qcplus, Q2Qc,
    Qc_of_Z, inject_Z in *;
  cbn [this] in *;
  rewrite ?Qred_correct in *.

Lemma Qcmin_le_l x y : (Qcmin x y ≤ x)%Qc.
Proof.
  unfold Qcmin. case_decide; [apply Qcle_refl|].
  by apply Qclt_le_weak, Qcnot_le_lt.
Qed.

Lemma Qcmin_le_r x y : (Qcmin x y ≤ y)%Qc.
Proof. unfold Qcmin. case_decide; [done|apply Qcle_refl]. Qed.

Lemma Qcmax_ge_l x y : (x ≤ Qcmax x y)%Qc.
Proof. unfold Qcmax. case_decide; [done|apply Qcle_refl]. Qed.

Lemma Qcmax_ge_r x y : (y ≤ Qcmax x y)%Qc.
Proof.
  unfold Qcmax. case_decide; [apply Qcle_refl|].
  by apply Qclt_le_weak, Qcnot_le_lt.
Qed.

Lemma foldl_Qcmin_le l a :
  (foldl Qcmin a l ≤ a)%Qc ∧ ∀ x, x ∈ l → (foldl Qcmin a l ≤ x)%Qc.
Proof.
  revert a. induction l as [|y l IH]; intros a; simpl.
  - split; [apply Qcle_refl|]. by intros x ?%elem_of_nil.
  - destruct (IH (Qcmin a y)) as [Ha Hl]. split.
    + eapply Qcle_trans; [exact Ha|apply Qcmin_le_l].
    + intros x [->|Hx]%elem_of_cons; [|by apply Hl].
      eapply Qcle_trans; [exact Ha|apply Qcmin_le_r].
Qed.

Lemma foldl_Qcmax_ge l a :
  (a ≤ foldl Qcmax a l)%Qc ∧ ∀ x, x ∈ l → (x ≤ foldl Qcmax a l)%Qc.
Proof.
  revert a. induction l as [|y l IH]; intros a; simpl.
  - split; [apply Qcle_refl|]. by intros x ?%elem_of_nil.
  - destruct (IH (Qcmax a y)) as [Ha Hl]. split.
    + eapply Qcle_trans; [apply Qcmax_ge_l|exact Ha].
    + intros x [->|Hx]%elem_of_cons; [|by apply Hl].
      eapply Qcle_trans; [apply Qcmax_ge_r|exact Ha].
Qed.

Lemma np_min_le l x : x ∈ l → (np_min l ≤ x)%Qc.
Proof.
  destruct l as [|a l]; [by intros ?%elem_of_nil|]. simpl.
  intros [->|Hx]%elem_of_cons;
    [apply (proj1 (foldl_Qcmin_le _ _))|by apply (proj2 (foldl_Qcmin_le _ _))].
Qed.

Lemma np_max_ge l x : x ∈ l → (x ≤ np_max l)%Qc.
Proof.
  destruct l as [|a l]; [by intros ?%elem_of_nil|]. simpl.
  intros [->|Hx]%elem_of_cons;
    [apply (proj1 (foldl_Qcmax_ge _ _))|by apply (proj2 (foldl_Qcmax_ge _ _))].
Qed.

(** One value through X * scale_ + min_ lands in the feature range. *)
Lemma minmax_value_within (lo hi mn mx v : Qc) :
  (lo < hi)%Qc → (mn ≤ v)%Qc → (v ≤ mx)%Qc →
  let r := (mx - mn)%Qc in
  let s := ((hi - lo) / (if decide (r = 0%Qc) then 1%Qc else r))%Qc in
  (lo ≤ v * s + (lo - mn * s) ∧ v * s + (lo - mn * s) ≤ hi)%Qc.
Proof.
  intros Hlh Hmn Hmx r s. subst s. case_decide as Hr.
  - assert (v = mn) as ->.
    { apply Qcle_antisym; [|done]. subst r. qc_to_q. lra. }
    replace (mn * ((hi - lo) / 1) + (lo - mn * ((hi - lo) / 1)))%Qc
      with lo by ring.
    split; [apply Qcle_refl|by apply Qclt_le_weak].
  - assert (0 < r)%Qc as Hpos.
    { destruct (Qclt_le_dec 0 r) as [|Hle]; [done|]. exfalso. apply Hr.
      apply Qcle_antisym; [done|]. subst r. qc_to_q. lra. }
    assert (((hi - lo) / r) * r = hi - lo)%Qc as Hs by (by field).
    assert (0 < (hi - lo) / r)%Qc as Hspos.
    { apply Qcmult_pos_pos; [|by apply Qcinv_pos]. qc_to_q. lra. }
    revert Hs Hspos. generalize ((hi - lo) / r)%Qc. intros s Hs Hspos.
    subst r. clear Hr. qc_to_q. split; nra.
Qed.

(** ** Slices, masks and the dictionary comprehension *)

Lemma py_slice_subseteq {A} (l : list A) a b : py_slice l a b ⊆ l.
Proof.
  unfold py_slice. etrans; [apply subseteq_take|apply subseteq_drop].
Qed.

Lemma mask_rows_subseteq {A} (X : list A) mask : mask_rows X mask ⊆ X.
Proof.
  intros x. unfold mask_rows.
  intros ([x' b] & -> & [_ Hin]%list_elem_of_filter)%list_elem_of_fmap.
  by eapply elem_of_zip_l.
Qed.

Lemma enumerate_class_labels :
  enumerate class_labels = [(0, "A"); (1, "B"); (2, "C")]%string.
Proof. reflexivity. Qed.

Lemma class_dict_lookup {V} (f : nat → V) k key :
  (k, key) ∈ enumerate class_labels →
  dict_comprehension f (enumerate class_labels) !! key = Some (f k).
Proof.
  rewrite enumerate_class_labels. unfold dict_comprehension. simpl.
  rewrite !elem_of_cons, elem_of_nil. intros [[= -> ->]|[[= -> ->]|[[= -> ->]|[]]]].
  - do 2 (rewrite lookup_insert_ne by done). by rewrite lookup_insert_eq.
  - rewrite lookup_insert_ne by done. by rewrite lookup_insert_eq.
  - by rewrite lookup_insert_eq.
Qed.

Lemma class_dict_lookup_inv {V} (f : nat → V) key v :
  dict_comprehension f (enumerate class_labels) !! key = Some v →
  ∃ k, (k, key) ∈ enumerate class_labels ∧ v = f k.
Proof.
  rewrite enumerate_class_labels. unfold dict_comprehension. simpl.
  rewrite !lookup_insert_Some, lookup_empty.
  intros [[<- <-]|[_ [[<- <-]|[_ [[<- <-]|[_ [=]]]]]]].
  - exists 2. split; [|done]. rewrite !elem_of_cons. auto.
  - exists 1. split; [|done]. rewrite !elem_of_cons. auto.
  - exists 0. split; [|done]. rewrite !elem_of_cons. auto.
Qed.

(** ** MinMaxScaler *)

Section minmax_lemmas.
Context `{Extern}.

Lemma MinMaxScaler_fit_inr fr X mm w w' :
  MinMaxScaler.fit fr X w = (inr mm, w') →
  (fr.1 < fr.2)%Qc ∧ X ≠ [] ∧ 0 < ncols X ∧ w' = w ∧
  MinMaxScaler.feature_range mm = fr ∧
  MinMaxScaler.data_min_ mm = axis0 np_min X ∧
  MinMaxScaler.data_max_ mm = axis0 np_max X ∧
  MinMaxScaler.scale_ mm =
    fmap (λ r, (fr.2 - fr.1) / r)%Qc
      (handle_zeros_in_scale
         (zip_with Qcminus (axis0 np_max X) (axis0 np_min X))) ∧
  MinMaxScaler.min_ mm =
    zip_with (λ m s, fr.1 - m * s)%Qc (axis0 np_min X)
      (MinMaxScaler.scale_ mm).
Proof.
  unfold MinMaxScaler.fit. case_decide as Hfr; [done|].
  intros (u & w1 & (? & ? & ->)%check_array_inr & [<- ->]%ret_inr)%bind_inr.
  split_and!; try done. by apply Qcnot_le_lt.
Qed.

Lemma MinMaxScaler_fit_run fr X w :
  (fr.1 < fr.2)%Qc → X ≠ [] → 0 < ncols X →
  ∃ mm, MinMaxScaler.fit fr X w = (inr mm, w).
Proof.
  intros Hfr HX Hc. unfold MinMaxScaler.fit.
  case_decide as Hle; [by apply Qcle_not_lt in Hle|].
  erewrite bind_run by by apply check_array_run. eauto.
Qed.

Lemma axis0_lookup f X j v :
  axis0 f X !! j = Some v → v = f (column j X) ∧ j < ncols X.
Proof.
  unfold axis0. rewrite list_lookup_fmap_Some.
  intros (i & -> & [-> ?]%lookup_seq). done.
Qed.

Lemma column_elem_of X x j v :
  x ∈ X → x !! j = Some v → v ∈ column j X.
Proof.
  intros Hx Hj. unfold column. apply list_elem_of_fmap.
  exists x. split; [|done]. by rewrite (nth_lookup_Some _ _ _ _ Hj).
Qed.

(** The values of a row of the fitted data, once transformed, lie in the
    feature range. *)
Lemma MinMaxScaler_transform_within fr X mm w w' x v :
  MinMaxScaler.fit fr X w = (inr mm, w') →
  x ∈ X → v ∈ MinMaxScaler.transform_row mm x →
  (fr.1 ≤ v ∧ v ≤ fr.2)%Qc.
Proof.
  intros (Hfr & _ & _ & _ & _ & _ & _ & Hscale & Hmin)%MinMaxScaler_fit_inr
    Hx Hv.
  unfold MinMaxScaler.transform_row in Hv.
  apply elem_of_lookup_zip_with in Hv as (j & a & m & -> & Ha & Hm).
  apply lookup_zip_with_Some in Ha as (xj & s & -> & Hxj & Hs).
  rewrite Hmin in Hm.
  apply lookup_zip_with_Some in Hm as (mn & s' & -> & Hmn & Hs').
  rewrite Hs in Hs'. injection Hs' as <-.
  rewrite Hscale in Hs. unfold handle_zeros_in_scale in Hs.
  apply list_lookup_fmap_Some in Hs as (r' & -> & Hr').
  apply list_lookup_fmap_Some in Hr' as (r & -> & Hr).
  apply lookup_zip_with_Some in Hr as (mx & mn' & -> & Hmx & Hmn').
  rewrite Hmn in Hmn'. injection Hmn' as <-.
  apply axis0_lookup in Hmn as [-> _].
  apply axis0_lookup in Hmx as [-> _].
  pose proof (column_elem_of _ _ _ _ Hx Hxj) as Hcol.
  by apply minmax_value_within; [|apply np_min_le|apply np_max_ge].
Qed.
End minmax_lemmas.

(** ** StandardScaler and PCA: what a successful fit says *)

Section fit_lemmas.
Context `{Extern}.

Lemma StandardScaler_fit_inr X sc w w' :
  StandardScaler.fit X w = (inr sc, w') →
  X ≠ [] ∧ 0 < ncols X ∧ w' = w ∧
  sc = {| StandardScaler.mean_ := axis0 np_mean X;
          StandardScaler.var_ := axis0 np_var X;
          StandardScaler.scale_ :=
            handle_zeros_in_scale (np_sqrt <$> axis0 np_var X) |}.
Proof.
  unfold StandardScaler.fit.
  intros (u & w1 & (? & ? & ->)%check_array_inr & [<- ->]%ret_inr)%bind_inr.
  done.
Qed.

Lemma StandardScaler_fit_run X w :
  X ≠ [] → 0 < ncols X → ∃ sc, StandardScaler.fit X w = (inr sc, w).
Proof.
  intros HX Hc. unfold StandardScaler.fit.
  erewrite bind_run by by apply check_array_run. eauto.
Qed.

Lemma PCA_fit_inr n X p w w' :
  PCA.fit n X w = (inr p, w') →
  X ≠ [] ∧ 0 < ncols X ∧ trace w' = trace w ∧
  PCA.mean_ p = axis0 np_mean X ∧
  (PCA.solver_is_full n X = true →
     w' = w ∧ pca_components_full n X = Some (PCA.components_ p)).
Proof.
  unfold PCA.fit.
  intros (u & w1 & (? & ? & ->)%check_array_inr & Hrest)%bind_inr.
  apply bind_inr in Hrest as (C & w2 & HC & [<- ->]%ret_inr).
  split_and!; try done.
  - destruct (PCA.solver_is_full n X).
    + by apply of_option_inr in HC as [_ ->].
    + apply bind_inr in HC as (g & w3 & Hg & HC).
      apply bind_inr in HC as (u' & w4 & Hset & [_ ->]%of_option_inr).
      unfold get_np_random in Hg. unfold set_np_random in Hset.
      by simplify_eq.
  - intros Hfull. rewrite Hfull in HC.
    by apply of_option_inr in HC as [-> ->].
Qed.

Lemma PCA_fit_run_full `{!ExternOk} n X w :
  X ≠ [] → 0 < ncols X → PCA.solver_is_full n X = true →
  (1 ≤ n ≤ Z.of_nat (Nat.min (length X) (ncols X)))%Z →
  ∃ p, PCA.fit n X w = (inr p, w).
Proof.
  intros HX Hc Hfull Hn. unfold PCA.fit.
  erewrite bind_run by by apply check_array_run.
  rewrite Hfull. destruct (pca_full_succeeds n X Hn) as [C HC].
  erewrite bind_run by by apply of_option_run. eauto.
Qed.
End fit_lemmas.

(** ** train_test_split *)

Lemma take_rows_Some {A} (X : list A) idx R d :
  take_rows X idx = Some R →
  R = (λ i, nth i X d) <$> idx ∧ Forall (λ i, i < length X) idx.
Proof.
  unfold take_rows. intros HR%mapM_Some_1.
  induction HR as [|i x idx R Hi _ [-> IH]]; [done|]. split.
  - simpl. by rewrite (nth_lookup_Some _ _ d _ Hi).
  - constructor; [by eapply lookup_lt_Some|done].
Qed.

Lemma take_rows_run {A} (X : list A) idx d :
  Forall (λ i, i < length X) idx →
  take_rows X idx = Some ((λ i, nth i X d) <$> idx).
Proof.
  intros Hidx. apply mapM_Some_2.
  induction Hidx as [|i idx Hi _ IH]; simpl; constructor; [|done].
  destruct (lookup_lt_is_Some_2 X i Hi) as [x Hx].
  by rewrite (nth_lookup_Some _ _ d _ Hx).
Qed.

Section split_lemmas.
Context `{Extern}.

Lemma train_test_split_inr X y s seed w r w' :
  train_test_split X y s (Some seed) w = (inr r, w') →
  let p := (permutation (RandomState_init seed) (length X)).1 in
  let ind_train := take (length X - Z.to_nat s) (drop (Z.to_nat s) p) in
  let ind_test := take (Z.to_nat s) p in
  w' = w ∧ length X = length y ∧ (0 < s < Z.of_nat (length X))%Z ∧
  take_rows X ind_train = Some r.1.1.1 ∧
  take_rows X ind_test = Some r.1.1.2 ∧
  take_rows y ind_train = Some r.1.2 ∧
  take_rows y ind_test = Some r.2.
Proof.
  unfold train_test_split. case_decide as Hlen; [|done].
  intros (ind & w1 & Hind & Hrest)%bind_inr.
  unfold shuffle_split in Hind.
  apply bind_inr in Hind as (sizes & w2 & Hsizes & Hind).
  unfold validate_shuffle_split in Hsizes.
  case_decide as Hs; [done|]. apply ret_inr in Hsizes as [<- ->].
  apply bind_inr in Hind as (p & w3 & Hp & [<- ->]%ret_inr).
  apply ret_inr in Hp as [<- ->]. simpl in Hrest.
  apply bind_inr in Hrest as (Xtr & w4 & [HXtr ->]%of_option_inr & Hrest).
  apply bind_inr in Hrest as (Xte & w5 & [HXte ->]%of_option_inr & Hrest).
  apply bind_inr in Hrest as (ytr & w6 & [Hytr ->]%of_option_inr & Hrest).
  apply bind_inr in Hrest as (yte & w7 & [Hyte ->]%of_option_inr & Hrest).
  apply ret_inr in Hrest as [<- ->]. simpl.
  split_and!; try done; lia.
Qed.

Context `{!ExternOk}.

Lemma permutation_facts g n :
  length (permutation g n).1 = n ∧ NoDup (permutation g n).1 ∧
  Forall (λ i, i < n) (permutation g n).1.
Proof.
  pose proof (permutation_ok g n) as Hp. split_and!.
  - by rewrite Hp, length_seq.
  - rewrite Hp. apply NoDup_seq.
  - rewrite Hp. apply Forall_forall. intros i [_ ?]%elem_of_seq. lia.
Qed.

Lemma train_test_split_run X y s seed w :
  length X = length y → (0 < s < Z.of_nat (length X))%Z →
  ∃ r, train_test_split X y s (Some seed) w = (inr r, w).
Proof.
  intros Hlen Hs. unfold train_test_split.
  case_decide; [|done]. unfold shuffle_split, validate_shuffle_split.
  case_decide; [lia|].
  destruct (permutation_facts (RandomState_init seed) (length X))
    as (Hplen & _ & Hlt).
  set (p := (permutation (RandomState_init seed) (length X)).1) in *.
  assert (Forall (λ i, i < length X)
            (take (length X - Z.to_nat s) (drop (Z.to_nat s) p))) as Htr
    by by apply Forall_take, Forall_drop.
  assert (Forall (λ i, i < length X) (take (Z.to_nat s) p)) as Hte
    by by apply Forall_take.
  erewrite bind_run by (erewrite bind_run by done; simpl;
                        erewrite bind_run by done; done).
  simpl.
  erewrite bind_run
    by (apply of_option_run, (take_rows_run _ _ []); exact Htr).
  erewrite bind_run
    by (apply of_option_run, (take_rows_run _ _ []); exact Hte).
  erewrite bind_run
    by (apply of_option_run, (take_rows_run _ _ 0); rewrite <-Hlen;
        exact Htr).
  erewrite bind_run
    by (apply of_option_run, (take_rows_run _ _ 0); rewrite <-Hlen;
        exact Hte).
  eauto.
Qed.
End split_lemmas.

(** ** What a successful run of Wine says about its local variables *)

Section Wine_inversion.
Context `{Extern}.

Lemma Wine_after_split_inr t s n D T tr0 te0 ltr lte w L w' :
  Wine_after_split t s n D T tr0 te0 ltr lte w = (inr L, w') →
  data L = D ∧ target L = T ∧ sample_train0 L = tr0 ∧
  sample_test0 L = te0 ∧ label_train L = ltr ∧ label_test L = lte ∧
  After_split_post t s n w w' L.
Proof.
  unfold Wine_after_split.
  intros (sc & w1 & Hsc & Hrest)%bind_inr.
  pose proof Hsc as (_ & _ & -> & _)%StandardScaler_fit_inr.
  apply bind_inr in Hrest as (p & w2 & Hp & Hrest).
  apply bind_inr in Hrest as (mm & w3 & Hmm & [<- ->]%ret_inr).
  pose proof Hmm as (_ & _ & _ & -> & _)%MinMaxScaler_fit_inr.
  split_and!; done.
Qed.

Lemma Wine_body_inr t s n w L w' :
  Wine_body t s n w = (inr L, w') → Wine_post t s n w w' L.
Proof.
  unfold Wine_body. intros (r & w1 & Hr & HL)%bind_inr.
  apply train_test_split_inr in Hr
    as (-> & Hlen & Hs & Htr & Hte & Hltr & Hlte).
  apply Wine_after_split_inr in HL
    as (HD & HT & Htr0 & Hte0 & Hl1 & Hl2 & Hpost).
  constructor; try done; unfold split_indices; simpl; congruence.
Qed.

Lemma Wine_inr t s n w r w' :
  Wine t s n w = (inr r, w') →
  ∃ L, Wine_body t s n w = (inr L, w') ∧
       r = (sample_train L, training_input L, test_input L, class_labels).
Proof.
  unfold Wine. intros (L & w1 & HL & [<- ->]%ret_inr)%bind_inr. eauto.
Qed.

Lemma Wine_run t s n w L w' :
  Wine_body t s n w = (inr L, w') →
  Wine t s n w
  = (inr (sample_train L, training_input L, test_input L, class_labels),
     w').
Proof. intros HL. unfold Wine. by erewrite bind_run by done. Qed.
End Wine_inversion.

(** ** Which computations touch the world *)

Section purity.
Context `{Extern}.

Lemma pure_ret {A} (x : A) : pure (mret x).
Proof. by exists (inr x). Qed.

Lemma pure_raise {A} e : pure (raise (A:=A) e).
Proof. by exists (inl e). Qed.

Lemma pure_of_option {A} e (o : option A) : pure (of_option e o).
Proof. destruct o; [apply pure_ret|apply pure_raise]. Qed.

Lemma pure_bind {A B} (m : M A) (f : A → M B) :
  pure m → (∀ x w, m w = (inr x, w) → pure (f x)) → pure (m ≫= f).
Proof.
  intros [[e|x] Hm] Hf.
  - exists (inl e). intros w. unfold mbind, M_bind. by rewrite Hm.
  - destruct (Hf x {| np_random := RandomState_init 0; trace := [] |}
                (Hm _)) as [r Hr].
    exists r. intros w. unfold mbind, M_bind. by rewrite Hm, Hr.
Qed.

Lemma pure_check_array X : pure (check_array X).
Proof.
  destruct X as [|x X]; [apply pure_raise|]. simpl.
  case_decide; [apply pure_raise|apply pure_ret].
Qed.

Lemma pure_rng_only {A} (m : M A) : pure m → rng_only m.
Proof. intros [r Hr] w1 w2 Hw. by rewrite !Hr. Qed.

Lemma rng_only_ret {A} (x : A) : rng_only (mret x).
Proof. apply pure_rng_only, pure_ret. Qed.

Lemma rng_only_bind {A B} (m : M A) (f : A → M B) :
  rng_only m → (∀ x, rng_only (f x)) → rng_only (m ≫= f).
Proof.
  intros Hm Hf w1 w2 Hw. destruct (Hm w1 w2 Hw) as [Hr Hw'].
  unfold mbind, M_bind.
  destruct (m w1) as [[e1|x1] w1'], (m w2) as [[e2|x2] w2'];
    simpl in *; simplify_eq; [done|]. by apply Hf.
Qed.

Lemma rng_only_get : rng_only get_np_random.
Proof. intros w1 w2 Hw. unfold get_np_random. simpl. by rewrite Hw. Qed.

Lemma rng_only_set g : rng_only (set_np_random g).
Proof. by intros w1 w2 Hw. Qed.

Lemma pure_StandardScaler_fit X : pure (StandardScaler.fit X).
Proof.
  apply pure_bind; [apply pure_check_array|]. intros. apply pure_ret.
Qed.

Lemma pure_MinMaxScaler_fit fr X : pure (MinMaxScaler.fit fr X).
Proof.
  unfold MinMaxScaler.fit. case_decide; [apply pure_raise|].
  apply pure_bind; [apply pure_check_array|]. intros. apply pure_ret.
Qed.

Lemma pure_PCA_fit n X :
  PCA.solver_is_full n X = true → pure (PCA.fit n X).
Proof.
  intros Hfull. unfold PCA.fit. rewrite Hfull.
  apply pure_bind; [apply pure_check_array|]. intros _ _ _.
  apply pure_bind; [apply pure_of_option|]. intros. apply pure_ret.
Qed.

Lemma rng_only_PCA_fit n X : rng_only (PCA.fit n X).
Proof.
  unfold PCA.fit.
  apply rng_only_bind; [apply pure_rng_only, pure_check_array|].
  intros _. apply rng_only_bind; [|intros; apply rng_only_ret].
  destruct (PCA.solver_is_full n X);
    [apply pure_rng_only, pure_of_option|].
  apply rng_only_bind; [apply rng_only_get|]. intros g.
  apply rng_only_bind; [apply rng_only_set|]. intros _.
  apply pure_rng_only, pure_of_option.
Qed.

Lemma pure_train_test_split X y s seed :
  pure (train_test_split X y s (Some seed)).
Proof.
  unfold train_test_split. case_decide; [|apply pure_raise].
  apply pure_bind.
  { unfold shuffle_split. apply pure_bind.
    - unfold validate_shuffle_split.
      case_decide; [apply pure_raise|apply pure_ret].
    - intros. apply pure_bind; [apply pure_ret|]. intros. apply pure_ret. }
  intros. repeat (apply pure_bind; [apply pure_of_option|]; intros).
  apply pure_ret.
Qed.

Lemma rng_only_Wine_after_split t s n D T tr0 te0 ltr lte :
  rng_only (Wine_after_split t s n D T tr0 te0 ltr lte).
Proof.
  unfold Wine_after_split.
  apply rng_only_bind; [apply pure_rng_only, pure_StandardScaler_fit|].
  intros sc. apply rng_only_bind; [apply rng_only_PCA_fit|].
  intros p. apply rng_only_bind;
    [apply pure_rng_only, pure_MinMaxScaler_fit|].
  intros mm. apply rng_only_ret.
Qed.

Lemma rng_only_Wine t s n : rng_only (Wine t s n).
Proof.
  unfold Wine, Wine_body.
  apply rng_only_bind; [|intros; apply rng_only_ret].
  apply rng_only_bind; [apply pure_rng_only, pure_train_test_split|].
  intros r. apply rng_only_Wine_after_split.
Qed.

(** The standardised training split is no larger than the split. *)
Lemma solver_is_full_small n (X : ndarray) :
  length X ≤ 500 → Forall (λ x, length x ≤ 500) X →
  PCA.solver_is_full n X = true.
Proof.
  intros Hrows Hcols. unfold PCA.solver_is_full.
  apply orb_true_iff. left. apply bool_decide_eq_true.
  destruct X as [|x X]; simpl in *; [lia|].
  apply Forall_cons in Hcols as [? _]. lia.
Qed.

Lemma pure_Wine_after_split t s n D T tr0 te0 ltr lte :
  length tr0 ≤ 500 → Forall (λ x, length x ≤ 500) tr0 →
  pure (Wine_after_split t s n D T tr0 te0 ltr lte).
Proof.
  intros Hrows Hcols. unfold Wine_after_split.
  apply pure_bind; [apply pure_StandardScaler_fit|]. intros sc _ _.
  apply pure_bind.
  { apply pure_PCA_fit, solver_is_full_small.
    - unfold StandardScaler.transform. by rewrite length_fmap.
    - apply Forall_fmap. eapply Forall_impl; [exact Hcols|].
      intros x Hx. simpl. unfold StandardScaler.transform_row.
      rewrite !length_zip_with. simpl in Hx. lia. }
  intros p _ _.
  apply pure_bind; [apply pure_MinMaxScaler_fit|]. intros.
  apply pure_ret.
Qed.

Lemma pure_Wine_body t s n :
  length load_wine.1 ≤ 500 →
  Forall (λ x, length x ≤ 500) load_wine.1 →
  pure (Wine_body t s n).
Proof.
  intros Hrows Hcols. unfold Wine_body.
  apply pure_bind; [apply pure_train_test_split|].
  intros r w Hr.
  apply train_test_split_inr in Hr as (_ & _ & _ & Htr & _).
  apply (take_rows_Some _ _ _ []) in Htr as [Htr Hidx].
  apply pure_Wine_after_split.
  - rewrite Htr, length_fmap, length_take, length_drop. lia.
  - rewrite Htr. apply Forall_fmap.
    eapply Forall_impl; [exact Hidx|]. intros i Hi. simpl.
    destruct (lookup_lt_is_Some_2 load_wine.1 i Hi) as [x Hx].
    rewrite (nth_lookup_Some _ _ _ _ Hx).
    eapply Forall_forall in Hcols; [exact Hcols|].
    by eapply list_elem_of_lookup_2.
Qed.

Lemma pure_Wine t s n :
  length load_wine.1 ≤ 500 →
  Forall (λ x, length x ≤ 500) load_wine.1 →
  pure (Wine t s n).
Proof.
  intros Hrows Hcols. unfold Wine.
  apply pure_bind; [by apply pure_Wine_body|intros; apply pure_ret].
Qed.

(** The outcome of a pure computation decides its run. *)
Lemma pure_run {A} (m : M A) (w : World) r :
  pure m → (m w).1 = r → m w = (r, w).
Proof. intros [r' Hr] <-. by rewrite Hr. Qed.
End purity.

(** ** The partitions are cut out of the returned sample_train *)

Section partitions.
Context `{Extern}.

Lemma training_input_subseteq t s n w w' L key X :
  After_split_post t s n w w' L →
  training_input L !! key = Some X → X ⊆ sample_train L.
Proof.
  intros HL. rewrite (post_training_input _ _ _ _ _ _ HL).
  intros (k & _ & ->)%class_dict_lookup_inv.
  etrans; [apply py_slice_subseteq|apply mask_rows_subseteq].
Qed.

Lemma test_input_subseteq t s n w w' L key X :
  After_split_post t s n w w' L →
  test_input L !! key = Some X → X ⊆ sample_train L.
Proof.
  intros HL. rewrite (post_test_input _ _ _ _ _ _ HL).
  intros (k & _ & ->)%class_dict_lookup_inv.
  etrans; [apply py_slice_subseteq|apply mask_rows_subseteq].
Qed.

Lemma sample_train_within t s n w w' L x v :
  After_split_post t s n w w' L →
  x ∈ sample_train L → v ∈ x → (-1 ≤ v ∧ v ≤ 1)%Qc.
Proof.
  intros HL. rewrite (post_train _ _ _ _ _ _ HL).
  unfold MinMaxScaler.transform.
  intros (x2 & -> & Hx2)%list_elem_of_fmap Hv.
  eapply (MinMaxScaler_transform_within ((-1)%Qc, 1%Qc));
    [apply (post_minmax _ _ _ _ _ _ HL)| |exact Hv].
  rewrite (post_samples _ _ _ _ _ _ HL). apply elem_of_app. by left.
Qed.
End partitions.

(** In exact arithmetic the rescaling keeps every value within [-1, 1]:
    every feature value of every vector of the training partition and of
    the testing partition (and of the returned sample_train array), for
    every call of Wine that returns. *)
Lemma Wine_values_within_range `{Extern} (training_size test_size n : Z)
    (w w' : World) (r : ndarray * Dataset * Dataset * list string) :
  Wine training_size test_size n w = (inr r, w') →
  dataset_within (-1) 1 r.1.1.2 ∧
  dataset_within (-1) 1 r.1.2 ∧
  (∀ x v, x ∈ r.1.1.1 → v ∈ x → (-1 ≤ v ∧ v ≤ 1)%Qc).
Proof.
  intros (L & HL%Wine_body_inr & ->)%Wine_inr. simpl.
  destruct HL as [_ _ _ _ _ _ _ _ HL]. split_and!.
  - intros key X x v HX Hx Hv.
    eapply sample_train_within; [done| |done].
    by eapply training_input_subseteq.
  - intros key X x v HX Hx Hv.
    eapply sample_train_within; [done| |done].
    by eapply test_input_subseteq.
  - intros x v. by eapply sample_train_within.
Qed.

(** ** Binary64 rounding *)
Section binary64_lemmas.
Import Binary64.
Local Open Scope Q_scope.

Lemma pow2_pos k : 0 < pow2 k.
Proof. apply Qpower_0_lt. reflexivity. Qed.

Lemma pow2_plus a b : pow2 (a + b) == pow2 a * pow2 b.
Proof. apply Qpower_plus. discriminate. Qed.

Lemma pow2_Z n : (0 <= n)%Z → pow2 n == inject_Z (2 ^ n).
Proof. intros Hn. unfold pow2. by rewrite Zpower_Qpower. Qed.

Lemma nearest_even_error z :
  - (1 # 2) <= inject_Z (nearest_even z) - z <= 1 # 2.
Proof.
  unfold nearest_even.
  pose proof (Qfloor_le z) as Hlo. pose proof (Qlt_floor z) as Hhi.
  rewrite inject_Z_plus in Hhi. change (inject_Z 1) with 1 in Hhi.
  destruct (Qcompare_spec (z - inject_Z (Qfloor z)) (1 # 2)) as [He|Hl|Hg].
  - destruct (Z.even (Qfloor z)); rewrite ?inject_Z_plus;
      change (inject_Z 1) with 1; lra.
  - lra.
  - rewrite inject_Z_plus. change (inject_Z 1) with 1. lra.
Qed.

Lemma nearest_even_nonneg z : 0 <= z → (0 <= nearest_even z)%Z.
Proof.
  intros Hz. unfold nearest_even.
  assert (0 <= Qfloor z)%Z as Hf.
  { change 0%Z with (Qfloor 0). by apply Qfloor_resp_le. }
  destruct (z - inject_Z (Qfloor z) ?= 1 # 2); [destruct (Z.even _)|..];
    lia.
Qed.

Lemma exponent_le q : ¬ q == 0 → pow2 (exponent q) <= Qabs q.
Proof.
  intros Hq. unfold exponent.
  set (n := Z.abs (Qnum q)). set (d := Zpos (Qden q)).
  destruct (Qle_bool _ _) eqn:Hb; [by apply Qle_bool_iff|].
  assert (0 < n)%Z as Hn.
  { unfold n. destruct q as [[|p|p] dq]; simpl; try lia.
    exfalso. apply Hq. reflexivity. }
  assert (0 < d)%Z as Hd by (unfold d; lia).
  pose proof (proj1 (Z.log2_spec n Hn)) as Hln.
  pose proof (proj2 (Z.log2_spec d Hd)) as Hld.
  assert (Qabs q == inject_Z n / inject_Z d) as ->.
  { unfold n, d. destruct q as [nq dq]. unfold Qabs, Qdiv, Qinv, Qmult,
      Qeq, inject_Z. simpl. destruct nq; simpl; lia. }
  replace (Z.log2 n - Z.log2 d - 1)%Z
    with (Z.log2 n + - Z.succ (Z.log2 d))%Z by lia.
  rewrite pow2_plus. unfold pow2 at 2. rewrite Qpower_opp.
  fold (pow2 (Z.succ (Z.log2 d))).
  rewrite !pow2_Z by (pose proof (Z.log2_nonneg n);
                      pose proof (Z.log2_nonneg d); lia).
  assert (inject_Z (2 ^ Z.log2 n) <= inject_Z n) as H1
    by (by rewrite <-Zle_Qle).
  assert (inject_Z d <= inject_Z (2 ^ Z.succ (Z.log2 d))) as H2
    by (rewrite <-Zle_Qle; lia).
  assert (0 < inject_Z d) as H3 by (by rewrite <-(Zlt_Qlt 0)).
  assert (0 < inject_Z (2 ^ Z.log2 n)) as H4.
  { rewrite <-(Zlt_Qlt 0). apply Z.pow_pos_nonneg; [lia|].
    apply Z.log2_nonneg. }
  revert H1 H2 H3 H4.
  generalize (inject_Z (2 ^ Z.log2 n)) (inject_Z n) (inject_Z d)
    (inject_Z (2 ^ Z.succ (Z.log2 d))).
  intros a b c e H1 H2 H3 H4.
  apply Qle_shift_div_l; [done|].
  assert (a * / e * c == a * (c / e)) as -> by (field; lra).
  assert (c / e <= 1) by (apply Qle_shift_div_r; lra).
  nra.
Qed.

Lemma nearest_even_0 z : z == 0 → nearest_even z = 0%Z.
Proof.
  intros Hz. unfold nearest_even.
  rewrite (Qfloor_comp _ _ Hz). change (Qfloor 0) with 0%Z.
  assert ((z - inject_Z 0 ?= 1 # 2) = Lt) as ->; [|done].
  apply Qlt_alt. change (inject_Z 0) with 0. rewrite Hz. reflexivity.
Qed.

Lemma round_Q_error (q B : Q) :
  - B <= q → q <= B →
  let k := ulp_exponent q in
  let r := inject_Z (nearest_even (q / pow2 k)) * pow2 k in
  - (pow2 (-53) * B + pow2 (-1075)) <= r - q ∧
  r - q <= pow2 (-53) * B + pow2 (-1075).
Proof.
  intros Hlo Hhi k r.
  pose proof (pow2_pos k) as Hk.
  pose proof (pow2_pos (-1075)) as Heta.
  pose proof (pow2_pos (-53)) as Hu.
  destruct (Qeq_dec q 0) as [Hq|Hq].
  { assert (r == 0) as Hr.
    { unfold r. rewrite nearest_even_0; [change (inject_Z 0) with 0; lra|].
      rewrite Hq. field. lra. }
    assert (0 <= B) by lra. nra. }
  set (z := q / pow2 k) in *.
  assert (q == z * pow2 k) as Hqz by (unfold z; field; lra).
  pose proof (nearest_even_error z) as [Hm1 Hm2].
  assert (r - q == (inject_Z (nearest_even z) - z) * pow2 k) as Hrq
    by (unfold r; rewrite Hqz at 1; ring).
  assert (pow2 k <= 2 * (pow2 (-53) * B + pow2 (-1075))) as HE.
  { unfold k, ulp_exponent.
    destruct (Z.max_spec (exponent q - 52) (-1074)) as [[_ ->]|[_ ->]].
    - assert (pow2 (-1074) == 2 * pow2 (-1075)) as ->.
      { replace (-1074)%Z with (1 + -1075)%Z by lia.
        by rewrite pow2_plus. }
      assert (0 <= B) by lra. nra.
    - pose proof (exponent_le q Hq) as He.
      assert (Qabs q <= B) as Hab by (apply Qabs_Qle_condition; lra).
      replace (exponent q - 52)%Z with (exponent q + (1 + -53))%Z by lia.
      rewrite !pow2_plus. change (pow2 1) with 2.
      pose proof (pow2_pos (exponent q)). nra. }
  rewrite Hrq. split; nra.
Qed.

Lemma round_Q_nonneg (q : Q) :
  0 <= q →
  0 <= inject_Z (nearest_even (q / pow2 (ulp_exponent q)))
       * pow2 (ulp_exponent q).
Proof.
  intros Hq. pose proof (pow2_pos (ulp_exponent q)) as Hk.
  apply Qmult_le_0_compat; [|lra].
  change 0 with (inject_Z 0). rewrite <-Zle_Qle.
  apply nearest_even_nonneg. apply Qle_shift_div_l; lra.
Qed.

End binary64_lemmas.

Lemma round_inv (q q' : Qc) :
  Binary64.round q = Some q' →
  let k := Binary64.ulp_exponent q in
  let r := (inject_Z (Binary64.nearest_even (q / Binary64.pow2 k))
            * Binary64.pow2 k)%Q in
  (q' == r)%Q ∧ (Qabs r < Binary64.pow2 1024)%Q.
Proof.
  unfold Binary64.round. cbv zeta. intros H.
  destruct (Qle_bool _ _) eqn:Hb; [done|]. injection H as <-.
  split; [apply Qred_correct|].
  apply Qnot_le_lt. intros Hle. apply Qle_bool_iff in Hle.
  by rewrite Hle in Hb.
Qed.

(** The error of one rounding, for a value of magnitude at most B *)
Lemma round_error (q q' : Qc) (B : Q) :
  Binary64.round q = Some q' →
  (- B <= q)%Q → (q <= B)%Q →
  (- (Binary64.pow2 (-53) * B + Binary64.pow2 (-1075)) <= q' - q)%Q ∧
  (q' - q <= Binary64.pow2 (-53) * B + Binary64.pow2 (-1075))%Q.
Proof.
  intros [Hq' _]%round_inv Hlo Hhi.
  pose proof (round_Q_error q B Hlo Hhi) as Herr. cbv zeta in Herr.
  rewrite Hq'. exact Herr.
Qed.

Lemma round_finite (q q' : Qc) :
  Binary64.round q = Some q' → (- huge64 < q')%Qc ∧ (q' < huge64)%Qc.
Proof.
  intros [Hq' Hfin]%round_inv.
  unfold Qclt, Qcopp, huge64, Q2Qc. cbn [this]. rewrite ?Qred_correct.
  rewrite Hq'. apply Qabs_Qlt_condition in Hfin. done.
Qed.

Lemma round_nonneg (q q' : Qc) :
  (0 ≤ q)%Qc → Binary64.round q = Some q' → (0 ≤ q')%Qc.
Proof.
  intros Hq [Hq' _]%round_inv. unfold Qcle in *. cbn [this] in *.
  rewrite Hq'. by apply round_Q_nonneg.
Qed.

Section rescale_Q.
Local Open Scope Q_scope.
Lemma rescale_Q (eta a b x K rh h s w p m q t : Q) :
  0 <= eta → eta <= u53 * (1 # 1000) →
  a <= x → x <= b → 0 <= K →
  - (K * h) <= x → x <= K * h → - (K * h) <= a → a <= K * h →
  (* range *)
  - (u53 * (b - a) + eta) <= rh - (b - a) → rh - (b - a) <= u53 * (b - a) + eta →
  0 <= rh → rh <= h → 0 < h → eta * h <= 4 * u53 →
  (* scale *)
  w * h == 2 →
  - (u53 * w + eta) <= s - w → s - w <= u53 * w + eta → 0 <= s →
  eta * s <= 4 * u53 →
  (* min_ *)
  - (u53 * (K * (h * s)) + eta) <= p - a * s →
  p - a * s <= u53 * (K * (h * s)) + eta →
  (∀ B, - B <= -1 - p → -1 - p <= B →
     - (u53 * B + eta) <= m - (-1 - p) ∧ m - (-1 - p) <= u53 * B + eta) →
  (* transform *)
  - (u53 * (K * (h * s)) + eta) <= q - x * s →
  q - x * s <= u53 * (K * (h * s)) + eta →
  (∀ B, - B <= q + m → q + m <= B →
     - (u53 * B + eta) <= t - (q + m) ∧ t - (q + m) <= u53 * B + eta) →
  - 1 - 16 * (K + 1) * u53 <= t ∧ t <= 1 + 16 * (K + 1) * u53.
Proof.
  intros He0 He1 Hax Hxb HK Hx1 Hx2 Ha1 Ha2 Hr1 Hr2 Hrh0 Hrh Hh Heh Hw
    Hs1 Hs2 Hs0 Hes Hp1 Hp2 Hm Hq1 Hq2 Ht.
  unfold u53 in *.
  assert (0 <= h) as Hh' by lra.
  assert (0 < w) as Hw0.
  { destruct (Qlt_le_dec 0 w) as [|Hn]; [done|]. exfalso.
    pose proof (Qmult_le_compat_r _ _ h Hn Hh'). lra. }
  pose proof (Qmult_le_compat_r _ _ h Hs2 Hh') as HS.
  pose proof (Qmult_le_0_compat _ _ Hh' Hs0) as HS0.
  assert (h * s <= 2 + 6 * (1 # 9007199254740992)) as HS' by lra.
  clear HS.
  pose proof (Qmult_le_compat_r _ _ s Hx1 Hs0) as HX1.
  pose proof (Qmult_le_compat_r _ _ s Hx2 Hs0) as HX2.
  pose proof (Qmult_le_compat_r _ _ s Ha1 Hs0) as HA1.
  pose proof (Qmult_le_compat_r _ _ s Ha2 Hs0) as HA2.
  pose proof (Qmult_le_compat_r _ _ s Hax Hs0) as HD0.
  pose proof (Qmult_le_compat_r _ _ s Hxb Hs0) as HD1.
  assert (b - a - (1 # 9007199254740992) * (b - a) <= h + eta) as Hr3
    by lra.
  pose proof (Qmult_le_compat_r _ _ s Hr3 Hs0) as HR.
  assert (K * (h * s) <= K * (2 + 6 * (1 # 9007199254740992))) as HK1.
  { rewrite !(Qmult_comm K). by apply Qmult_le_compat_r. }
  pose proof (Qmult_le_0_compat _ _ HK HS0) as HK0.
  assert (- (K * h) * s == - (K * (h * s))) as E1 by ring.
  assert (K * h * s == K * (h * s)) as E2 by ring.
  assert ((b - a - (1 # 9007199254740992) * (b - a)) * s
          == (b * s - a * s) * (1 - (1 # 9007199254740992))) as E3 by ring.
  assert ((h + eta) * s == h * s + eta * s) as E4 by ring.
  rewrite E1 in HX1, HA1. rewrite E2 in HX2, HA2. rewrite E3, E4 in HR.
  clear E1 E2 E3 E4.
  set (KHS := K * (h * s)) in *. set (HSv := h * s) in *.
  set (XS := x * s) in *. set (AS := a * s) in *. set (BS := b * s) in *.
  set (ES := eta * s) in *.
  destruct (Hm (1 + KHS + ((1 # 9007199254740992) * KHS + eta)))
    as [Hm1 Hm2]; [lra|lra|].
  destruct (Ht (2 + 4 * KHS)) as [Ht1 Ht2]; [lra|lra|].
  split; lra.
Qed.
End rescale_Q.

Lemma eta64_small :
  (0 <= Binary64.pow2 (-1075))%Q ∧
  (Binary64.pow2 (-1075) <= u53 * (1 # 1000))%Q.
Proof.
  split; [apply Qlt_le_weak, pow2_pos|].
  apply Qle_bool_iff. vm_compute. reflexivity.
Qed.

Lemma eta64_finite (h : Q) :
  (h <= Binary64.pow2 1024)%Q → (Binary64.pow2 (-1075) * h <= 4 * u53)%Q.
Proof.
  intros Hh.
  assert (Binary64.pow2 (-1075) * Binary64.pow2 1024 == 4 * u53)%Q as <-.
  { rewrite <-pow2_plus. reflexivity. }
  apply Qmult_le_l; [apply pow2_pos|done].
Qed.

Lemma u64_uu : (Binary64.pow2 (-53) == u53)%Q.
Proof. reflexivity. Qed.

Lemma Qc_sub_nonneg (a b : Qc) : (a ≤ b)%Qc → (0 ≤ b - a)%Qc.
Proof. intros H. qc_to_q. lra. Qed.

Lemma Qc_two_div_nonneg (h : Qc) : (0 < h)%Qc → (0 ≤ Q2Qc 2 / h)%Qc.
Proof.
  intros H. qc_to_q. apply Qle_shift_div_l; [done|]. lra.
Qed.

(** One value through the fitted rescaling of one column: the column has
    minimum a and maximum b, the value x lies between them, and K bounds
    the magnitudes of x and a in units of the zero-handled range. *)
Lemma rescale64_bound (a b x K rh s p m q t : Qc) :
  let h := if decide (rh = 0%Qc) then 1%Qc else rh in
  (a ≤ x)%Qc → (x ≤ b)%Qc → (0 ≤ K)%Qc →
  (- (K * h) ≤ x)%Qc → (x ≤ K * h)%Qc →
  (- (K * h) ≤ a)%Qc → (a ≤ K * h)%Qc →
  Binary64.sub b a = Some rh →
  Binary64.div (Q2Qc 2) h = Some s →
  Binary64.mul a s = Some p →
  Binary64.sub (-1)%Qc p = Some m →
  Binary64.mul x s = Some q →
  Binary64.add q m = Some t →
  (- 1 - Q2Qc 16 * (K + 1) * u64 ≤ t)%Qc ∧
  (t ≤ 1 + Q2Qc 16 * (K + 1) * u64)%Qc.
Proof.
  intros h Hax Hxb HK Hx1 Hx2 Ha1 Ha2 Hrh Hs Hp Hm Hq Ht.
  unfold Binary64.sub, Binary64.mul, Binary64.add in *.
  assert (0 ≤ rh)%Qc as Hrh0.
  { eapply round_nonneg; [|exact Hrh]. apply Qc_sub_nonneg.
    by apply (Qcle_trans _ x). }
  assert (0 < h)%Qc as Hh.
  { unfold h. case_decide as Hz; [reflexivity|].
    destruct (Qcle_lt_or_eq _ _ Hrh0) as [Hlt|Heq]; [exact Hlt|].
    exfalso. apply Hz. by symmetry. }
  assert (rh ≤ h)%Qc as Hrhh.
  { unfold h. case_decide as Hz; [|apply Qcle_refl].
    rewrite Hz. apply Qclt_le_weak. reflexivity. }
  assert (h ≤ huge64)%Qc as Hhfin.
  { unfold h. case_decide.
    - unfold Qcle. apply Qle_bool_iff. vm_compute. reflexivity.
    - apply Qclt_le_weak. by apply round_finite in Hrh as [_ ?]. }
  unfold Binary64.div in Hs.
  destruct (decide (h = 0%Qc)) as [Hh0|Hh0]; [done|].
  assert (0 ≤ s)%Qc as Hs0.
  { eapply round_nonneg; [|exact Hs]. by apply Qc_two_div_nonneg. }
  assert (s ≤ huge64)%Qc as Hsfin
    by (apply Qclt_le_weak; by apply round_finite in Hs as [_ ?]).
  pose proof (round_error _ _ (b - a)%Q Hrh) as Er.
  pose proof (round_error _ _ (2 / h)%Q Hs) as Es.
  pose proof (round_error _ _ (K * (h * s))%Q Hp) as Ep.
  pose proof (λ B, round_error _ _ B Hm) as Em.
  pose proof (round_error _ _ (K * (h * s))%Q Hq) as Eq.
  pose proof (λ B, round_error _ _ B Ht) as Et.
  clear Hrh Hs Hp Hm Hq Ht Hh0. clearbody h.
  destruct eta64_small as [He0 He1].
  pose proof (eta64_finite h) as Heh. pose proof (eta64_finite s) as Hes.
  unfold u64, huge64 in *.
  unfold Qcle, Qclt, Qcdiv, Qcminus, Qcinv, Qcopp, Qcmult, Qcplus, Q2Qc
    in *.
  cbn [this] in *.
  repeat setoid_rewrite Qred_correct in Em.
  repeat setoid_rewrite Qred_correct in Et.
  rewrite ?Qred_correct in *.
  setoid_rewrite u64_uu in Em. setoid_rewrite u64_uu in Et.
  rewrite ?u64_uu in *.
  set (eta := Binary64.pow2 (-1075)) in *.
  specialize (Heh Hhfin). specialize (Hes Hsfin). clear Hhfin Hsfin.
  assert (/ h * h == 1)%Q as Hw by (field; lra).
  assert (0 <= / h)%Q as Hw0 by (apply Qinv_le_0_compat; lra).
  unfold Qdiv in *. set (hi := (/ h)%Q) in *.
  assert (0 <= h * s)%Q as Hsh by (apply Qmult_le_0_compat; lra).
  assert (- (K * (h * s)) <= a * s ∧ a * s <= K * (h * s))%Q as [Ha3 Ha4].
  { pose proof (Qmult_le_compat_r _ _ s Ha1 Hs0).
    pose proof (Qmult_le_compat_r _ _ s Ha2 Hs0). split; lra. }
  assert (- (K * (h * s)) <= x * s ∧ x * s <= K * (h * s))%Q as [Hx3 Hx4].
  { pose proof (Qmult_le_compat_r _ _ s Hx1 Hs0).
    pose proof (Qmult_le_compat_r _ _ s Hx2 Hs0). split; lra. }
  destruct Er as [Er1 Er2]; [lra|lra|].
  destruct Es as [Es1 Es2]; [lra|lra|].
  destruct Ep as [Ep1 Ep2]; [lra|lra|].
  destruct Eq as [Eq1 Eq2]; [lra|lra|].
  apply (rescale_Q eta a b x K rh h s (2 * hi) p m q t); try lra.
  - intros B. apply Em.
  - intros B. apply Et.
Qed.

Lemma foldl_Qcmin_elem l a : foldl Qcmin a l ∈ a :: l.
Proof.
  revert a. induction l as [|y l IH]; intros a; simpl.
  - apply list_elem_of_here.
  - specialize (IH (Qcmin a y)). apply elem_of_cons in IH as [->|IH].
    + unfold Qcmin. case_decide; [apply list_elem_of_here|].
      apply list_elem_of_further, list_elem_of_here.
    + by do 2 apply list_elem_of_further.
Qed.

Lemma np_min_elem l : l ≠ [] → np_min l ∈ l.
Proof. destruct l; [done|]. intros _. apply foldl_Qcmin_elem. Qed.

Lemma sub_feature_range w :
  Binary64.sub 1%Qc (-1)%Qc = Some w → w = Q2Qc 2.
Proof.
  intros [Hw _]%round_inv. apply Qc_is_canon. rewrite Hw.
  vm_compute. reflexivity.
Qed.

Lemma mapM_lookup {A B} (f : A → option B) l k j y :
  mapM f l = Some k → k !! j = Some y →
  ∃ x, l !! j = Some x ∧ f x = Some y.
Proof.
  intros Hm%mapM_Some Hy.
  destruct (Forall2_lookup_r _ _ _ _ _ Hm Hy) as (x & Hx & Hf). eauto.
Qed.

Lemma MinMaxScaler64_transform_within X mm x y v (K : Qc) :
  MinMaxScaler64.fit ((-1)%Qc, 1%Qc) X = Some mm →
  x ∈ X → MinMaxScaler64.transform_row mm x = Some y → v ∈ y →
  (0 ≤ K)%Qc →
  (∀ x j v h,
     x ∈ X → x !! j = Some v →
     handle_zeros_in_scale (MinMaxScaler.data_range_ mm) !! j = Some h →
     (- (K * h) ≤ v ∧ v ≤ K * h)%Qc) →
  (- 1 - Q2Qc 16 * (K + 1) * u64 ≤ v)%Qc ∧
  (v ≤ 1 + Q2Qc 16 * (K + 1) * u64)%Qc.
Proof.
  unfold MinMaxScaler64.fit. intros Hfit Hx Hy Hv HK Hbound.
  case_decide as Hfr; [done|]. destruct X as [|x0 X']; [done|].
  case_decide as Hlen; [done|]. set (X := x0 :: X') in *.
  destruct (mapM _ (zip _ _)) as [data_range|] eqn:Hdr; [|done].
  simpl in Hfit.
  destruct (Binary64.sub 1 (-1)) as [width|] eqn:Hwidth; [|done].
  simpl in Hfit. apply sub_feature_range in Hwidth as ->.
  destruct (mapM (Binary64.div _) _) as [scale|] eqn:Hsc; [|done].
  simpl in Hfit.
  destruct (mapM _ (zip _ scale)) as [mins|] eqn:Hmin; [|done].
  simpl in Hfit. injection Hfit as <-.
  unfold MinMaxScaler64.transform_row in Hy. simpl in Hy, Hbound.
  apply list_elem_of_lookup in Hv as [j Hj].
  destruct (mapM_lookup _ _ _ _ _ Hy Hj) as ([[xj s] m] & Hz & Hq).
  simpl in Hq.
  apply lookup_zip_with_Some in Hz as (? & ? & [= <- <-] & Hz & Hm).
  apply lookup_zip_with_Some in Hz as (? & ? & [= <- <-] & Hxj & Hs).
  apply bind_Some in Hq as (q & Hq & Ht).
  destruct (mapM_lookup _ _ _ _ _ Hsc Hs) as (h & Hh & Hdiv).
  pose proof Hh as Hh'.
  apply list_lookup_fmap_Some in Hh as (rh & -> & Hrh).
  destruct (mapM_lookup _ _ _ _ _ Hdr Hrh) as ([b a] & Hz & Hsub).
  simpl in Hsub.
  apply lookup_zip_with_Some in Hz as (? & ? & [= <- <-] & Hb & Ha).
  destruct (mapM_lookup _ _ _ _ _ Hmin Hm) as ([a' s'] & Hz & Hp).
  simpl in Hp.
  apply lookup_zip_with_Some in Hz as (? & ? & [= <- <-] & Ha' & Hs').
  rewrite Ha in Ha'. injection Ha' as <-.
  rewrite Hs in Hs'. injection Hs' as <-.
  apply bind_Some in Hp as (p & Hp & Hmm).
  apply axis0_lookup in Ha as [-> _]. apply axis0_lookup in Hb as [-> _].
  pose proof (column_elem_of X x j xj Hx Hxj) as Hcol.
  destruct (Hbound x j xj _ Hx Hxj Hh') as [Hx1 Hx2].
  assert (- (K * (if decide (rh = 0%Qc) then 1%Qc else rh))
          ≤ np_min (column j X) ∧
          np_min (column j X)
          ≤ K * (if decide (rh = 0%Qc) then 1%Qc else rh))%Qc as [Ha1 Ha2].
  { assert (np_min (column j X) ∈ column j X) as Hin
      by (apply np_min_elem; intros E; by rewrite E in Hcol;
          apply elem_of_nil in Hcol).
    apply list_elem_of_fmap in Hin as (x' & Hnth & Hx').
    destruct (x' !! j) as [a|] eqn:Hx'j.
    - rewrite (nth_lookup_Some _ _ _ _ Hx'j) in Hnth. rewrite Hnth.
      by apply (Hbound x' j a).
    - rewrite nth_overflow in Hnth
        by (by apply lookup_ge_None in Hx'j).
      rewrite Hnth.
      revert Hx1 Hx2.
      generalize (K * (if decide (rh = 0%Qc) then 1%Qc else rh))%Qc.
      intros c Hx1 Hx2. qc_to_q. lra. }
  eapply (rescale64_bound (np_min (column j X)) (np_max (column j X))
            xj K rh s p m q v); try done.
  - by apply np_min_le.
  - by apply np_max_ge.
Qed.

Lemma MinMaxScaler64_transform_rows mm X Y y :
  MinMaxScaler64.transform mm X = Some Y → y ∈ Y →
  ∃ x, x ∈ X ∧ MinMaxScaler64.transform_row mm x = Some y.
Proof.
  intros HY [j Hj]%list_elem_of_lookup.
  destruct (mapM_lookup _ _ _ _ _ HY Hj) as (x & Hx & Hxy).
  exists x. split; [by eapply list_elem_of_lookup_2|done].
Qed.

(** C3 (counterexample). The rescaling of Wine in binary64 on the PCA
    output -1, -2, 3 (one component, a column of mean 0, one training row
    for each class) and 0 (the held-out row): the training vector of class
    C is 1.0000000000000002, above 1. *)
Lemma Wine_rescaling_exceeds_one :
  ∃ r X,
    Wine_rescaling64 1 1
      [[Qc_of_Z (-1)]; [Qc_of_Z (-2)]; [Qc_of_Z 3]] [[Qc_of_Z 0]] [0; 1; 2]
    = Some r ∧
    r.1.2 !! "C"%string = Some X ∧
    ¬ (∀ x v, x ∈ X → v ∈ x → (-1 ≤ v ∧ v ≤ 1)%Qc).
Proof.
  eexists _, _. split_and!.
  - vm_compute. reflexivity.
  - vm_compute. reflexivity.
  - intros H.
    destruct (H _ _ (list_elem_of_here _ _) (list_elem_of_here _ _))
      as [_ Hle].
    revert Hle. apply Qclt_not_le. reflexivity.
Qed.

(** C3. In binary64 the values Wine returns lie in [-1, 1] up to rounding:
    when the rescaling returns (no operation overflows), every feature
    value of every vector of the training partition, of the testing
    partition and of the returned sample_train lies in
    [-1 - eps, 1 + eps] with eps = 16 (K + 1) 2^-53, where K bounds the
    magnitude of every value of PCA's output in units of the fitted range
    of its column (the range with 1 for 0, as the scaler takes it). *)
Theorem Wine_values_within_rounding (training_size test_size : Z)
    (sample_train2 sample_test2 : ndarray) (label_train : list nat)
    (mm : MinMaxScaler.t) (K : Qc) (r : ndarray * Dataset * Dataset) :
  MinMaxScaler64.fit ((-1)%Qc, 1%Qc) (sample_train2 ++ sample_test2)
  = Some mm →
  Wine_rescaling64 training_size test_size sample_train2 sample_test2
    label_train = Some r →
  (0 ≤ K)%Qc →
  (∀ x j v h,
     x ∈ sample_train2 ++ sample_test2 → x !! j = Some v →
     handle_zeros_in_scale (MinMaxScaler.data_range_ mm) !! j = Some h →
     (- (K * h) ≤ v ∧ v ≤ K * h)%Qc) →
  let eps := (Q2Qc 16 * (K + 1) * u64)%Qc in
  dataset_within (-1 - eps) (1 + eps) r.1.2 ∧
  dataset_within (-1 - eps) (1 + eps) r.2 ∧
  (∀ x v, x ∈ r.1.1 → v ∈ x → (-1 - eps ≤ v ∧ v ≤ 1 + eps)%Qc).
Proof.
  intros Hfit Hrun HK Hbound eps. unfold Wine_rescaling64 in Hrun.
  rewrite Hfit in Hrun. simpl in Hrun.
  destruct (MinMaxScaler64.transform mm sample_train2) as [st|] eqn:Hst;
    [|done].
  simpl in Hrun.
  destruct (MinMaxScaler64.transform mm sample_test2) as [ste|]; [|done].
  simpl in Hrun. injection Hrun as <-. simpl.
  assert (∀ x v, x ∈ st → v ∈ x → (-1 - eps ≤ v ∧ v ≤ 1 + eps)%Qc)
    as Hwithin.
  { intros y v Hy Hv.
    destruct (MinMaxScaler64_transform_rows _ _ _ _ Hst Hy)
      as (x & Hx & Hxy).
    eapply MinMaxScaler64_transform_within; try done.
    apply elem_of_app. by left. }
  split_and!; [| |done].
  - intros key X x v [k [_ ->]]%class_dict_lookup_inv Hx Hv.
    apply (Hwithin x v); [|done].
    by apply py_slice_subseteq, mask_rows_subseteq in Hx.
  - intros key X x v [k [_ ->]]%class_dict_lookup_inv Hx Hv.
    apply (Hwithin x v); [|done].
    by apply py_slice_subseteq, mask_rows_subseteq in Hx.
Qed.

Lemma Wine_values_within_rounding_witness :
  ∃ r,
    Wine_rescaling64 1 1
      [[Qc_of_Z (-1)]; [Qc_of_Z (-2)]; [Qc_of_Z 3]] [[Qc_of_Z 0]] [0; 1; 2]
    = Some r ∧
    dataset_within (-1 - Q2Qc 16 * (1 + 1) * u64)
      (1 + Q2Qc 16 * (1 + 1) * u64) r.1.2.
Proof.
  eexists. split; [vm_compute; reflexivity|].
  eapply (Wine_values_within_rounding 1 1
            [[Qc_of_Z (-1)]; [Qc_of_Z (-2)]; [Qc_of_Z 3]] [[Qc_of_Z 0]]
            [0; 1; 2] _ 1%Qc).
  - vm_compute. reflexivity.
  - vm_compute. reflexivity.
  - apply (bool_decide_unpack _). vm_compute. exact I.
  - intros x j v h Hx Hj Hh.
    destruct j as [|j].
    + injection Hh as <-.
      repeat (apply elem_of_cons in Hx as [->|Hx]);
        [..|by apply elem_of_nil in Hx];
        injection Hj as <-;
        split; apply (bool_decide_unpack _); vm_compute; exact I.
    + repeat (apply elem_of_cons in Hx as [->|Hx]);
        [..|by apply elem_of_nil in Hx]; destruct j; discriminate Hj.
Defined.

(** ** Shapes *)

Lemma ncols_rectangular d X : X ≠ [] → rectangular d X → ncols X = d.
Proof. destruct X; [done|]. by intros _ [? _]%Forall_cons. Qed.

Lemma length_axis0 f X : length (axis0 f X) = ncols X.
Proof. unfold axis0. by rewrite length_fmap, length_seq. Qed.

Lemma length_handle_zeros_in_scale l :
  length (handle_zeros_in_scale l) = length l.
Proof. unfold handle_zeros_in_scale. by rewrite length_fmap. Qed.

Lemma rectangular_fmap d d' (f : row → row) X :
  (∀ x, length x = d → length (f x) = d') →
  rectangular d X → rectangular d' (f <$> X).
Proof.
  intros Hf HX. apply Forall_fmap. eapply Forall_impl; [exact HX|].
  intros x Hx. by apply Hf.
Qed.

Lemma rectangular_rows d (X : ndarray) idx :
  rectangular d X → Forall (λ i, i < length X) idx →
  rectangular d ((λ i, nth i X []) <$> idx).
Proof.
  intros HX Hidx. apply Forall_fmap. eapply Forall_impl; [exact Hidx|].
  intros i Hi. simpl.
  destruct (lookup_lt_is_Some_2 X i Hi) as [x Hx].
  rewrite (nth_lookup_Some _ _ _ _ Hx).
  eapply Forall_forall in HX; [exact HX|]. by eapply list_elem_of_lookup_2.
Qed.

Section shape_lemmas.
Context `{Extern}.

Lemma StandardScaler_transform_row_length X sc w w' x :
  StandardScaler.fit X w = (inr sc, w') →
  length x = ncols X →
  length (StandardScaler.transform_row sc x) = ncols X.
Proof.
  intros (_ & _ & _ & ->)%StandardScaler_fit_inr Hx.
  unfold StandardScaler.transform_row. simpl.
  rewrite !length_zip_with, length_handle_zeros_in_scale, length_fmap,
    !length_axis0. lia.
Qed.

Lemma PCA_transform_row_length p x :
  length (PCA.transform_row p x) = length (PCA.components_ p).
Proof. unfold PCA.transform_row. by rewrite length_fmap. Qed.

Lemma MinMaxScaler_transform_row_length fr X mm w w' x :
  MinMaxScaler.fit fr X w = (inr mm, w') →
  length x = ncols X →
  length (MinMaxScaler.transform_row mm x) = ncols X.
Proof.
  intros (_ & _ & _ & _ & _ & _ & _ & Hscale & Hmin)%MinMaxScaler_fit_inr
    Hx.
  assert (length (MinMaxScaler.scale_ mm) = ncols X) as Hlen.
  { rewrite Hscale, length_fmap, length_handle_zeros_in_scale,
      length_zip_with, !length_axis0. lia. }
  unfold MinMaxScaler.transform_row.
  rewrite !length_zip_with, Hmin, length_zip_with, Hlen, length_axis0. lia.
Qed.
End shape_lemmas.

(** ** Wine returns on a well-shaped table *)

Section Wine_succeeds.
Context `{Extern} `{!ExternOk}.

Lemma split_indices_facts s :
  (0 < s < Z.of_nat (length load_wine.1))%Z →
  let p := (permutation (RandomState_init 7) (length load_wine.1)).1 in
  (split_indices s).1 = drop (Z.to_nat s) p ∧
  (split_indices s).2 = take (Z.to_nat s) p ∧
  length (split_indices s).1 = length load_wine.1 - Z.to_nat s ∧
  length (split_indices s).2 = Z.to_nat s ∧
  Forall (λ i, i < length load_wine.1) p.
Proof.
  intros Hs p.
  destruct (permutation_facts (RandomState_init 7) (length load_wine.1))
    as (Hlen & _ & Hlt). fold p in Hlen, Hlt.
  unfold split_indices. fold p. simpl.
  assert (take (length load_wine.1 - Z.to_nat s) (drop (Z.to_nat s) p)
          = drop (Z.to_nat s) p) as ->.
  { apply take_ge. rewrite length_drop. lia. }
  rewrite length_drop, length_take. split_and!; try done; lia.
Qed.

Lemma split_train_shape d s X :
  rectangular d load_wine.1 →
  (0 < s < Z.of_nat (length load_wine.1))%Z →
  take_rows load_wine.1 (split_indices s).1 = Some X →
  X ≠ [] ∧ rectangular d X ∧
  length X = length load_wine.1 - Z.to_nat s.
Proof.
  intros Hrect Hs HX.
  destruct (split_indices_facts s Hs) as (Htr & _ & Hlen & _ & Hlt).
  apply (take_rows_Some _ _ _ []) in HX as [-> Hidx].
  assert (length ((λ i, nth i load_wine.1 []) <$> (split_indices s).1)
          = length load_wine.1 - Z.to_nat s) as Hlen'
    by by rewrite length_fmap.
  split_and!; [|by apply rectangular_rows|done].
  intros Hnil. rewrite Hnil in Hlen'. simpl in Hlen'. lia.
Qed.

Lemma Wine_body_succeeds d training_size test_size n w :
  length load_wine.1 = length load_wine.2 →
  rectangular d load_wine.1 →
  Nat.max (length load_wine.1) d ≤ 500 →
  (0 < test_size < Z.of_nat (length load_wine.1))%Z →
  (1 ≤ n ≤
     Z.of_nat (Nat.min (length load_wine.1 - Z.to_nat test_size) d))%Z →
  ∃ L, Wine_body training_size test_size n w = (inr L, w).
Proof.
  intros Hlen Hrect Hsmall Hs Hn.
  destruct (train_test_split_run load_wine.1 load_wine.2 test_size 7 w
              Hlen Hs) as [r Hr].
  pose proof (train_test_split_inr _ _ _ _ _ _ _ Hr)
    as (_ & _ & _ & Htr & _).
  destruct (split_train_shape d test_size r.1.1.1 Hrect Hs Htr)
    as (Hne & Hrect0 & Hlen0).
  pose proof (ncols_rectangular _ _ Hne Hrect0) as Hcols0.
  unfold Wine_body. erewrite bind_run by exact Hr.
  unfold Wine_after_split.
  destruct (StandardScaler_fit_run r.1.1.1 w Hne) as [sc Hsc]; [lia|].
  erewrite bind_run by exact Hsc. cbv zeta.
  set (X1 := StandardScaler.transform sc r.1.1.1).
  assert (rectangular d X1) as Hrect1.
  { apply (rectangular_fmap d); [|done]. intros x Hx.
    rewrite <-Hcols0.
    eapply StandardScaler_transform_row_length; [done|lia]. }
  assert (length X1 = length load_wine.1 - Z.to_nat test_size) as Hlen1
    by (unfold X1, StandardScaler.transform; by rewrite length_fmap).
  assert (X1 ≠ []) as Hne1 by (intros E; rewrite E in Hlen1; simpl in *; lia).
  pose proof (ncols_rectangular _ _ Hne1 Hrect1) as Hcols1.
  destruct (PCA_fit_run_full n X1 w Hne1) as [p Hp]; [lia| |lia|].
  { unfold PCA.solver_is_full. apply orb_true_iff. left.
    apply bool_decide_eq_true. lia. }
  erewrite bind_run by exact Hp.
  pose proof (PCA_fit_inr _ _ _ _ _ Hp) as (_ & _ & _ & _ & Hfull).
  set (X2 := PCA.transform p X1).
  set (Y2 := PCA.transform p (StandardScaler.transform sc r.1.1.2)).
  assert (length (PCA.components_ p) = Z.to_nat n) as Hcomp.
  { eapply pca_full_shape, Hfull.
    unfold PCA.solver_is_full. apply orb_true_iff. left.
    apply bool_decide_eq_true. lia. }
  assert (X2 ++ Y2 ≠ [] ∧ 0 < ncols (X2 ++ Y2)) as [Hne2 Hcols2].
  { unfold X2, PCA.transform. destruct X1 as [|x X1]; [done|]. simpl.
    split; [done|]. rewrite PCA_transform_row_length. lia. }
  destruct (MinMaxScaler_fit_run ((-1)%Qc, 1%Qc) (X2 ++ Y2) w)
    as [mm Hmm]; [done..|].
  erewrite bind_run by exact Hmm. eauto.
Qed.
End Wine_succeeds.

(** ** Which rows of the table end up in which partition *)

Lemma py_slice_nonneg {A} (l : list A) (a b : Z) :
  (0 ≤ a ≤ b)%Z →
  py_slice l a b = take (Z.to_nat b - Z.to_nat a) (drop (Z.to_nat a) l).
Proof.
  intros Hab. unfold py_slice, slice_bound.
  case_decide; [lia|]. case_decide; [lia|].
  destruct (decide (length l ≤ Z.to_nat a)) as [Hge|Hlt].
  - rewrite !drop_ge by lia. by rewrite !take_nil.
  - rewrite (Nat.min_r (length l) (Z.to_nat a)) by lia.
    destruct (decide (Z.to_nat b ≤ length l)) as [Hb|Hb].
    + by rewrite Nat.min_r by lia.
    + rewrite Nat.min_l by lia.
      rewrite !take_ge; [done|rewrite length_drop; lia..].
Qed.

Lemma py_slice_fmap {A B} (f : A → B) (l : list A) a b :
  py_slice (f <$> l) a b = f <$> py_slice l a b.
Proof. unfold py_slice. by rewrite length_fmap, fmap_take, fmap_drop. Qed.

Lemma length_py_slice_head {A} (l : list A) (t : Z) :
  (0 ≤ t)%Z → length (py_slice l 0 t) = Nat.min (Z.to_nat t) (length l).
Proof.
  intros Ht. rewrite py_slice_nonneg by lia.
  rewrite length_take, length_drop. lia.
Qed.

Lemma length_py_slice_next {A} (l : list A) (t s : Z) :
  (0 ≤ t)%Z → (0 ≤ s)%Z →
  length (py_slice l t (t + s))
  = Nat.min (Z.to_nat s) (length l - Z.to_nat t).
Proof.
  intros Ht Hs. rewrite py_slice_nonneg by lia.
  rewrite length_take, length_drop. lia.
Qed.

(** The two slices of one list have no position in common. *)
Lemma py_slices_disjoint {A} (l : list A) (t s : Z) x :
  (0 ≤ t)%Z → (0 ≤ s)%Z → NoDup l →
  x ∈ py_slice l 0 t → x ∉ py_slice l t (t + s).
Proof.
  intros Ht Hs Hnd. rewrite !py_slice_nonneg by lia.
  change (Z.to_nat 0) with 0. rewrite drop_0, Nat.sub_0_r.
  rewrite <-(take_drop (Z.to_nat t) l) in Hnd.
  apply NoDup_app in Hnd as (_ & Hdisj & _).
  intros Hx Hx'. apply (Hdisj x Hx). by eapply subseteq_take.
Qed.

Lemma mask_rows_fmap {A B} (f : A → B) (h : A → nat) (idx : list A) k :
  mask_rows (f <$> idx) (label_mask (h <$> idx) k)
  = f <$> filter (λ i, h i = k) idx.
Proof.
  unfold mask_rows, label_mask.
  induction idx as [|i idx IH]; [done|]. simpl.
  rewrite !filter_cons. simpl.
  destruct (decide (h i = k)) as [Hk|Hk].
  - rewrite bool_decide_eq_true_2 by done. simpl.
    destruct (decide (true = true)); [|done]. simpl. by f_equal.
  - rewrite bool_decide_eq_false_2 by done. simpl.
    destruct (decide (false = true)); [done|]. exact IH.
Qed.

Lemma filter_label_lookup (T : list nat) (idx : list nat) k :
  Forall (λ i, i < length T) idx →
  filter (λ i, nth i T 0 = k) idx = filter (λ i, T !! i = Some k) idx.
Proof.
  intros Hidx. induction Hidx as [|i idx Hi _ IH]; [done|].
  rewrite !filter_cons, IH.
  destruct (lookup_lt_is_Some_2 T i Hi) as [l Hl].
  rewrite (nth_lookup_Some _ _ 0 _ Hl), Hl.
  destruct (decide (l = k)), (decide (Some l = Some k)); congruence.
Qed.

Lemma NoDup_fmap_inj_on {A B} (f : A → B) (l : list A) x y :
  NoDup (f <$> l) → x ∈ l → y ∈ l → f x = f y → x = y.
Proof.
  induction l as [|a l IH]; [by intros _ ?%elem_of_nil|].
  rewrite fmap_cons, NoDup_cons. intros [Ha Hnd].
  intros [->|Hx]%elem_of_cons [->|Hy]%elem_of_cons Hxy; [done| | |by apply IH].
  - exfalso. apply Ha. rewrite Hxy. by apply list_elem_of_fmap_2.
  - exfalso. apply Ha. rewrite <-Hxy. by apply list_elem_of_fmap_2.
Qed.

Section provenance.
Context `{Extern} `{!ExternOk}.

Lemma split_indices_partition s :
  (0 < s < Z.of_nat (length load_wine.1))%Z →
  (split_indices s).2 ++ (split_indices s).1
    ≡ₚ seq 0 (length load_wine.1) ∧
  NoDup (split_indices s).1 ∧
  (∀ i, i ∈ (split_indices s).1 →
        (i ∉ (split_indices s).2) ∧ i < length load_wine.1).
Proof.
  intros Hs.
  destruct (split_indices_facts s Hs) as (-> & -> & _ & _ & Hlt).
  rewrite take_drop.
  destruct (permutation_facts (RandomState_init 7) (length load_wine.1))
    as (_ & Hnd & _).
  split; [apply permutation_ok|].
  rewrite <-(take_drop (Z.to_nat s)
               (permutation (RandomState_init 7) (length load_wine.1)).1)
    in Hnd.
  apply NoDup_app in Hnd as (_ & Hdisj & Hnd). split; [done|].
  intros i Hi. split; [by intros ?%Hdisj|].
  eapply Forall_forall in Hlt; [exact Hlt|]. by eapply subseteq_drop.
Qed.

Lemma class_rows_facts s k :
  (0 < s < Z.of_nat (length load_wine.1))%Z →
  NoDup (class_rows s k) ∧
  ∀ i, i ∈ class_rows s k →
       i ∈ (split_indices s).1 ∧ load_wine.2 !! i = Some k.
Proof.
  intros (_ & Hnd & _)%split_indices_partition. split.
  - by apply NoDup_filter.
  - by intros i [? ?]%list_elem_of_filter.
Qed.

Lemma partition_rows_facts t s k :
  (0 ≤ t)%Z → (0 < s < Z.of_nat (length load_wine.1))%Z →
  training_rows t s k ⊆ (split_indices s).1 ∧
  test_rows t s k ⊆ (split_indices s).1 ∧
  NoDup (training_rows t s k ++ test_rows t s k) ∧
  (∀ i, i ∈ training_rows t s k ++ test_rows t s k →
        (i ∉ (split_indices s).2) ∧ load_wine.2 !! i = Some k) ∧
  (∀ k' i, i ∈ training_rows t s k → i ∉ test_rows t s k').
Proof.
  intros Ht Hs. destruct (class_rows_facts s k Hs) as [Hnd Hin].
  pose proof (split_indices_partition s Hs) as (_ & _ & Hsplit).
  assert (training_rows t s k ⊆ class_rows s k) as Htr
    by apply py_slice_subseteq.
  assert (test_rows t s k ⊆ class_rows s k) as Hte
    by apply py_slice_subseteq.
  split_and!.
  - intros i Hi%Htr. by apply Hin.
  - intros i Hi%Hte. by apply Hin.
  - unfold training_rows, test_rows. rewrite !py_slice_nonneg by lia.
    change (Z.to_nat 0) with 0. rewrite drop_0, Nat.sub_0_r.
    eapply sublist_NoDup; [exact Hnd|].
    rewrite <-(take_drop (Z.to_nat t) (class_rows s k)) at 3.
    apply sublist_app; [done|apply sublist_take].
  - intros i [Hi%Htr|Hi%Hte]%elem_of_app;
      destruct (Hin i Hi) as [Hi' ?]; split; try done; by apply Hsplit.
  - intros k' i Hi Hi'. destruct (decide (k = k')) as [<-|Hne].
    + revert Hi'. apply py_slices_disjoint; [lia..|done|done].
    + apply Htr, Hin in Hi as [_ Hk].
      apply py_slice_subseteq in Hi'.
      apply (class_rows_facts s k' Hs) in Hi' as [_ Hk']. congruence.
Qed.

Lemma Wine_rows t s n w w' L :
  Wine_post t s n w w' L →
  sample_train L = row_pipeline L <$> base_rows (split_indices s).1 ∧
  sample_test L = row_pipeline L <$> base_rows (split_indices s).2 ∧
  label_train L = (λ i, nth i load_wine.2 0) <$> (split_indices s).1.
Proof.
  intros [_ _ _ _ Htr Hte Hltr _ HL].
  apply (take_rows_Some _ _ _ []) in Htr as [Htr _].
  apply (take_rows_Some _ _ _ []) in Hte as [Hte _].
  apply (take_rows_Some _ _ _ 0) in Hltr as [Hltr _].
  destruct HL as [_ H1 H1' _ H2 H2' _ _ H3 H3' _ _].
  split_and!; [| |done].
  - rewrite H3, H2, H1, Htr. unfold MinMaxScaler.transform, PCA.transform,
      StandardScaler.transform, base_rows, row_pipeline.
    by rewrite <-!list_fmap_compose.
  - rewrite H3', H2', H1', Hte. unfold MinMaxScaler.transform,
      PCA.transform, StandardScaler.transform, base_rows, row_pipeline.
    by rewrite <-!list_fmap_compose.
Qed.

Lemma Wine_mask_lengths t s n w w' L k :
  Wine_post t s n w w' L →
  length (sample_train L) = length (label_mask (label_train L) k).
Proof.
  intros (-> & _ & ->)%Wine_rows. unfold label_mask, base_rows.
  by rewrite !length_fmap.
Qed.

Lemma Wine_partition_rows t s n w w' L k key :
  Wine_post t s n w w' L → (k, key) ∈ enumerate class_labels →
  training_input L !! key
    = Some (row_pipeline L <$> base_rows (training_rows t s k)) ∧
  test_input L !! key
    = Some (row_pipeline L <$> base_rows (test_rows t s k)).
Proof.
  intros HL Hk. pose proof (Wine_rows _ _ _ _ _ _ HL) as (Htr & _ & Hl).
  pose proof (post_test_size _ _ _ _ _ _ HL) as Hs.
  pose proof (post_lengths _ _ _ _ _ _ HL) as Hlen.
  destruct (post_after _ _ _ _ _ _ HL)
    as [_ _ _ _ _ _ _ _ _ _ Htrain Htest].
  assert (mask_rows (sample_train L) (label_mask (label_train L) k)
          = row_pipeline L <$> base_rows (class_rows s k)) as Hmask.
  { rewrite Htr, Hl. unfold base_rows.
    rewrite <-!list_fmap_compose, mask_rows_fmap. unfold class_rows.
    rewrite filter_label_lookup; [done|].
    pose proof (split_indices_partition s Hs) as (_ & _ & Hsplit).
    apply Forall_forall. intros i Hi. rewrite <-Hlen. by apply Hsplit. }
  rewrite Htrain, Htest.
  rewrite !(class_dict_lookup _ k key Hk), Hmask.
  unfold base_rows, training_rows, test_rows.
  by rewrite <-!list_fmap_compose, !py_slice_fmap.
Qed.
End provenance.

(** ** The concrete environment meets the assumptions *)

Lemma Toy_env_ok : @ExternOk Toy.env.
Proof.
  constructor.
  - intros g n. simpl. apply reverse_Permutation.
  - intros n X Hn. simpl. unfold Toy.components.
    case_decide; [by eexists|done].
  - intros n X C. simpl. unfold Toy.components.
    case_decide; [|done]. intros [= <-].
    by rewrite length_fmap, length_seq.
Qed.

Lemma Toy_table_rectangular : rectangular 13 Toy.table.
Proof.
  unfold Toy.table. apply Forall_fmap, Forall_forall. by intros i _.
Qed.

Lemma Toy_table_length : length Toy.table = 178.
Proof. unfold Toy.table. by rewrite length_fmap, length_seq. Qed.

Lemma Toy_wine_shaped : @wine_shaped Toy.env.
Proof.
  constructor;
    [exact Toy_table_length|exact Toy_table_rectangular|reflexivity].
Qed.

Lemma Toy_Wine_body_succeeds (t : Z) (w : @World Toy.env) :
  ∃ L, Wine_body (H:=Toy.env) t 10 4 w = (inr L, w).
Proof.
  pose proof Toy_env_ok. pose proof Toy_table_length as Hlen.
  change Toy.table with (@load_wine Toy.env).1 in Hlen.
  apply (Wine_body_succeeds 13); rewrite ?Hlen;
    [reflexivity|exact Toy_table_rectangular|lia..].
Qed.

Lemma Toy_pure_Wine_body (t s n : Z) : pure (Wine_body (H:=Toy.env) t s n).
Proof.
  apply pure_Wine_body.
  - pose proof Toy_table_length as Hlen.
    change Toy.table with (@load_wine Toy.env).1 in Hlen.
    rewrite Hlen. lia.
  - change (Forall (λ x, length x ≤ 500) Toy.table).
    eapply Forall_impl; [exact Toy_table_rectangular|].
    intros x Hx. simpl in Hx. lia.
Qed.

(** C1 (counterexample). On the concrete table, with the sizes of the
    notebook, a vector of the testing partition of class A is not a row of
    the held-out test split. *)
Lemma Wine_test_partition_outside_test_split :
  ∃ L X x,
    Wine_body (H:=Toy.env) 20 10 4 Toy.world0 = (inr L, Toy.world0) ∧
    test_input L !! "A"%string = Some X ∧ x ∈ X ∧ x ∉ sample_test L.
Proof.
  eexists _, _, _. split.
  { apply pure_run; [apply Toy_pure_Wine_body|]. vm_compute. reflexivity. }
  split; [vm_compute; reflexivity|].
  split; [apply list_elem_of_here|].
  apply (bool_decide_unpack _). vm_compute. exact I.
Qed.

(** C1 (as amended). For every call of Wine with a non-negative training
    size that returns, both partitions are drawn from the training split of
    the initial train/test split: the class-k training partition is the
    image, under the fitted row transforms, of the first training_size
    class-k rows of the training split, the class-k testing partition that
    of the next test_size ones; no row of the table feeds both partitions,
    and no row of the held-out test split feeds either. *)
Theorem Wine_partitions_drawn_from_training_split `{Extern} `{!ExternOk}
    (training_size test_size n : Z) (w w' : World) (L : Wine_locals) :
  (0 ≤ training_size)%Z →
  Wine_body training_size test_size n w = (inr L, w') →
  (split_indices test_size).2 ++ (split_indices test_size).1
    ≡ₚ seq 0 (length load_wine.1) ∧
  sample_train L
    = row_pipeline L <$> base_rows (split_indices test_size).1 ∧
  sample_test L
    = row_pipeline L <$> base_rows (split_indices test_size).2 ∧
  ∀ k key, (k, key) ∈ enumerate class_labels →
    training_input L !! key
      = Some (row_pipeline L
                <$> base_rows (training_rows training_size test_size k)) ∧
    test_input L !! key
      = Some (row_pipeline L
                <$> base_rows (test_rows training_size test_size k)) ∧
    training_rows training_size test_size k ⊆ (split_indices test_size).1 ∧
    test_rows training_size test_size k ⊆ (split_indices test_size).1 ∧
    (∀ i, i ∈ training_rows training_size test_size k
              ++ test_rows training_size test_size k →
          i ∉ (split_indices test_size).2) ∧
    (∀ k' i, i ∈ training_rows training_size test_size k →
             i ∉ test_rows training_size test_size k').
Proof.
  intros Ht HL%Wine_body_inr.
  pose proof (post_test_size _ _ _ _ _ _ HL) as Hs.
  pose proof (split_indices_partition test_size Hs) as (Hperm & _ & _).
  pose proof (Wine_rows _ _ _ _ _ _ HL) as (Htr & Hte & _).
  split_and!; try done. intros k key Hk.
  pose proof (Wine_partition_rows _ _ _ _ _ _ k key HL Hk) as [Hin Hout].
  pose proof (partition_rows_facts training_size test_size k Ht Hs)
    as (H1 & H2 & _ & H3 & H4).
  split_and!; try done. intros i Hi. by apply H3.
Qed.

Lemma Wine_partitions_drawn_from_training_split_witness :
  ∃ L, Wine_body (H:=Toy.env) 20 10 4 Toy.world0 = (inr L, Toy.world0) ∧
       sample_test L
         = row_pipeline L
             <$> base_rows (H:=Toy.env) (split_indices (H:=Toy.env) 10).2 ∧
       test_input L !! "A"%string
         = Some (row_pipeline L
                   <$> base_rows (H:=Toy.env)
                         (test_rows (H:=Toy.env) 20 10 0)) ∧
       test_rows (H:=Toy.env) 20 10 0 ⊆ (split_indices (H:=Toy.env) 10).1.
Proof.
  destruct (Toy_Wine_body_succeeds 20 Toy.world0) as [L HL].
  exists L. split; [exact HL|].
  destruct (@Wine_partitions_drawn_from_training_split
              Toy.env Toy_env_ok 20 10 4 Toy.world0 Toy.world0 L
              ltac:(lia) HL) as (_ & _ & Hte & Hk).
  split; [exact Hte|].
  destruct (Hk 0 "A"%string) as (_ & Hin & _ & Hsub & _).
  - rewrite enumerate_class_labels. apply list_elem_of_here.
  - split; [exact Hin|exact Hsub].
Defined.

(** ** How many rows of each class the training split holds *)

Lemma count_label_seq (pre T : list nat) k :
  length (filter (λ i, (pre ++ T) !! i = Some k) (seq (length pre) (length T)))
  = length (filter (λ l, l = k) T).
Proof.
  revert pre. induction T as [|x T IH]; intros pre; [done|].
  simpl. rewrite !filter_cons, list_lookup_middle by done.
  specialize (IH (pre ++ [x])).
  rewrite <-app_assoc, length_app in IH. simpl in IH.
  rewrite Nat.add_1_r in IH.
  destruct (decide (Some x = Some k)), (decide (x = k));
    try congruence; simpl; by rewrite IH.
Qed.

Section class_counts.
Context `{Extern} `{!ExternOk}.

Lemma class_rows_count s k :
  length load_wine.1 = length load_wine.2 →
  (0 < s < Z.of_nat (length load_wine.1))%Z →
  length (filter (λ l, l = k) load_wine.2)
  ≤ length (class_rows s k) + Z.to_nat s.
Proof.
  intros Hlen Hs.
  pose proof (split_indices_partition s Hs) as (Hperm & _ & _).
  pose proof (split_indices_facts s Hs) as (_ & _ & _ & Hte & _).
  rewrite <-(count_label_seq [] load_wine.2 k). simpl.
  rewrite <-Hlen, <-Hperm, filter_app, length_app.
  pose proof (length_filter (λ i, load_wine.2 !! i = Some k)
                (split_indices s).2) as Hle.
  unfold class_rows. lia.
Qed.

Lemma wine_class_rows k :
  wine_shaped → k < 3 → 30 ≤ length (class_rows 10 k).
Proof.
  intros [Hn _ HT] Hk.
  pose proof (class_rows_count 10 k) as Hc.
  rewrite Hn, HT in Hc. specialize (Hc eq_refl ltac:(lia)).
  assert (48 ≤ length (filter (λ l, l = k) wine_target)) as Hw.
  { destruct k as [|[|[|k]]]; [vm_compute; lia..|lia]. }
  lia.
Qed.
End class_counts.

(** ** Sizes of the partitions and lengths of their vectors *)

Lemma n_vectors_class_dict (f : nat → ndarray) :
  n_vectors (dict_comprehension f (enumerate class_labels))
  = length (f 0) + length (f 1) + length (f 2).
Proof.
  rewrite enumerate_class_labels. unfold dict_comprehension, n_vectors.
  simpl.
  rewrite !map_fold_insert_L, map_fold_empty; [lia|try (intros; lia)..];
    by simplify_map_eq.
Qed.

Section sizes.
Context `{Extern} `{!ExternOk}.

Lemma Wine_partition_lengths t s n w w' L k key :
  Wine_post t s n w w' L → (0 ≤ t)%Z →
  (k, key) ∈ enumerate class_labels →
  ∃ Xtr Xte,
    training_input L !! key = Some Xtr ∧
    test_input L !! key = Some Xte ∧
    length Xtr = Nat.min (Z.to_nat t) (length (class_rows s k)) ∧
    length Xte
    = Nat.min (Z.to_nat s) (length (class_rows s k) - Z.to_nat t).
Proof.
  intros HL Ht Hk.
  pose proof (post_test_size _ _ _ _ _ _ HL) as Hs.
  destruct (Wine_partition_rows _ _ _ _ _ _ k key HL Hk) as [Hin Hout].
  eexists _, _. split_and!; [exact Hin|exact Hout|..].
  - unfold base_rows, training_rows.
    by rewrite !length_fmap, length_py_slice_head.
  - unfold base_rows, test_rows.
    rewrite !length_fmap, length_py_slice_next; [done|lia..].
Qed.

(** With the exact solver, every row of the returned sample_train has
    n features. *)
Lemma Wine_sample_train_rectangular d t s n w w' L :
  Wine_post t s n w w' L →
  rectangular d load_wine.1 → Nat.max (length load_wine.1) d ≤ 500 →
  rectangular (Z.to_nat n) (sample_train L).
Proof.
  intros HL Hrect Hsmall.
  pose proof (post_test_size _ _ _ _ _ _ HL) as Hs.
  destruct (split_train_shape d s _ Hrect Hs
              (post_train0 _ _ _ _ _ _ HL)) as (Hne0 & Hrect0 & Hlen0).
  pose proof (ncols_rectangular _ _ Hne0 Hrect0) as Hcols0.
  destruct (post_after _ _ _ _ _ _ HL)
    as [Hstd H1 _ Hpca H2 _ Hsamples Hmm H3 _ _ _].
  assert (rectangular d (sample_train1 L)) as Hrect1.
  { rewrite H1. apply (rectangular_fmap d); [|done]. intros x Hx.
    rewrite <-Hcols0.
    eapply StandardScaler_transform_row_length; [done|lia]. }
  assert (length (sample_train1 L) = length load_wine.1 - Z.to_nat s)
    as Hlen1.
  { rewrite H1. unfold StandardScaler.transform.
    by rewrite length_fmap. }
  pose proof (PCA_fit_inr _ _ _ _ _ Hpca) as (Hne1 & _ & _ & _ & Hfull).
  pose proof (ncols_rectangular _ _ Hne1 Hrect1) as Hcols1.
  destruct Hfull as [_ Hcomp].
  { unfold PCA.solver_is_full. apply orb_true_iff. left.
    apply bool_decide_eq_true. lia. }
  apply pca_full_shape in Hcomp.
  assert (rectangular (Z.to_nat n) (sample_train2 L)) as Hrect2.
  { rewrite H2. apply Forall_fmap, Forall_forall. intros x _. simpl.
    by rewrite PCA_transform_row_length. }
  assert (ncols (samples L) = Z.to_nat n) as Hcols.
  { rewrite Hsamples. destruct (sample_train2 L) as [|x2 X2] eqn:E.
    - rewrite H2 in E. by destruct (sample_train1 L).
    - simpl. by apply Forall_cons in Hrect2 as [? _]. }
  rewrite H3. apply (rectangular_fmap (Z.to_nat n)); [|done].
  intros x Hx. rewrite <-Hcols.
  eapply MinMaxScaler_transform_row_length; [done|lia].
Qed.

Lemma Wine_exact_partitions d t s n w w' L :
  Wine_post t s n w w' L →
  rectangular d load_wine.1 → Nat.max (length load_wine.1) d ≤ 500 →
  (0 ≤ t)%Z →
  (∀ k, k < 3 → Z.to_nat t + Z.to_nat s ≤ length (class_rows s k)) →
  exact_partitions t s n L.
Proof.
  intros HL Hrect Hsmall Ht Havail k key Hk.
  pose proof (post_test_size _ _ _ _ _ _ HL) as Hs.
  assert (k < 3) as Hk3.
  { rewrite enumerate_class_labels, !elem_of_cons, elem_of_nil in Hk.
    destruct Hk as [[= -> _]|[[= -> _]|[[= -> _]|[]]]]; lia. }
  destruct (Wine_partition_lengths _ _ _ _ _ _ k key HL Ht Hk)
    as (Xtr & Xte & Hin & Hout & Hlin & Hlout).
  pose proof (Wine_partition_rows _ _ _ _ _ _ k key HL Hk) as [Hin' Hout'].
  pose proof (Wine_sample_train_rectangular _ _ _ _ _ _ _ HL Hrect Hsmall)
    as Hrect'.
  pose proof (partition_rows_facts t s k Ht Hs)
    as (Htr & _ & _ & _ & Hdisj).
  specialize (Havail k Hk3).
  exists Xtr, Xte. split_and!; try done; try lia.
  - eapply Forall_forall. intros x Hx.
    eapply Forall_forall in Hrect'; [exact Hrect'|].
    exact (training_input_subseteq _ _ _ _ _ _ key Xtr
             (post_after _ _ _ _ _ _ HL) Hin x Hx).
  - eapply Forall_forall. intros x Hx.
    eapply Forall_forall in Hrect'; [exact Hrect'|].
    exact (test_input_subseteq _ _ _ _ _ _ key Xte
             (post_after _ _ _ _ _ _ HL) Hout x Hx).
  - congruence.
  - congruence.
  - intros Hnd key' Xte' x Hout'' Hx Hx'.
    pose proof Hout'' as Hk'.
    rewrite (post_test_input _ _ _ _ _ _ (post_after _ _ _ _ _ _ HL))
      in Hk'.
    apply class_dict_lookup_inv in Hk' as (k' & Hk' & _).
    pose proof (Wine_partition_rows _ _ _ _ _ _ k' key' HL Hk')
      as [_ Hte'].
    pose proof (Wine_rows _ _ _ _ _ _ HL) as (Hst & _ & _).
    pose proof (partition_rows_facts t s k' Ht Hs) as (_ & Hte & _).
    assert (Xtr = row_pipeline L
                    <$> base_rows (training_rows t s k)) as -> by congruence.
    assert (Xte' = row_pipeline L
                     <$> base_rows (test_rows t s k')) as -> by congruence.
    unfold base_rows in *. rewrite <-list_fmap_compose in *.
    apply list_elem_of_fmap in Hx as (i & -> & Hi).
    apply list_elem_of_fmap in Hx' as (j & Hij & Hj).
    rewrite Hst in Hnd.
    assert (i = j) as <-.
    { eapply NoDup_fmap_inj_on; [exact Hnd|by apply Htr|by apply Hte|done]. }
    by apply (Hdisj k' i).
Qed.
End sizes.

(** C2. For every requested training size t >= 0 and testing size s such
    that every class has at least t + s rows in the training split, Wine
    returns, and its training partition holds exactly t vectors of each
    class and its testing partition exactly s, each of n features, with no
    row of the table feeding both partitions (and no vector in both when
    the rows of sample_train are pairwise distinct). In particular, on a
    table with the shape of the wine dataset, Wine(20, 10, 4) returns 20
    training vectors per class (60 in all) and 10 testing vectors per
    class (30 in all), each of length 4. *)
Theorem Wine_partition_sizes `{Extern} `{!ExternOk} :
  (∀ d (training_size test_size n : Z) (w : World),
     length load_wine.1 = length load_wine.2 →
     rectangular d load_wine.1 →
     Nat.max (length load_wine.1) d ≤ 500 →
     (0 < test_size < Z.of_nat (length load_wine.1))%Z →
     (1 ≤ n ≤
        Z.of_nat (Nat.min (length load_wine.1 - Z.to_nat test_size) d))%Z →
     (0 ≤ training_size)%Z →
     (∀ k, k < 3 →
           Z.to_nat training_size + Z.to_nat test_size
           ≤ length (class_rows test_size k)) →
     ∃ L,
       Wine training_size test_size n w
       = (inr (sample_train L, training_input L, test_input L, class_labels),
          w) ∧
       exact_partitions training_size test_size n L) ∧
  (wine_shaped →
   ∀ w : World,
     ∃ L,
       Wine 20 10 4 w
       = (inr (sample_train L, training_input L, test_input L, class_labels),
          w) ∧
       exact_partitions 20 10 4 L ∧
       n_vectors (training_input L) = 60 ∧
       n_vectors (test_input L) = 30).
Proof.
  assert (∀ d (training_size test_size n : Z) (w : World),
     length load_wine.1 = length load_wine.2 →
     rectangular d load_wine.1 →
     Nat.max (length load_wine.1) d ≤ 500 →
     (0 < test_size < Z.of_nat (length load_wine.1))%Z →
     (1 ≤ n ≤
        Z.of_nat (Nat.min (length load_wine.1 - Z.to_nat test_size) d))%Z →
     (0 ≤ training_size)%Z →
     (∀ k, k < 3 →
           Z.to_nat training_size + Z.to_nat test_size
           ≤ length (class_rows test_size k)) →
     ∃ L,
       Wine_post training_size test_size n w w L ∧
       Wine training_size test_size n w
       = (inr (sample_train L, training_input L, test_input L, class_labels),
          w) ∧
       exact_partitions training_size test_size n L) as Hgen.
  { intros d t s n w Hlen Hrect Hsmall Hs Hn Ht Havail.
    destruct (Wine_body_succeeds d t s n w Hlen Hrect Hsmall Hs Hn)
      as [L HL].
    exists L. split_and!; [by apply Wine_body_inr|by apply Wine_run|].
    apply Wine_body_inr in HL. by eapply Wine_exact_partitions. }
  split.
  - intros d t s n w Hlen Hrect Hsmall Hs Hn Ht Havail.
    destruct (Hgen d t s n w) as (L & _ & ? & ?); eauto.
  - intros Hwine w. pose proof Hwine as [Hn Hrect HT].
    destruct (Hgen 13 20%Z 10%Z 4%Z w) as (L & HL & Hrun & Hex);
      rewrite ?Hn, ?HT; try done; try lia.
    { intros k Hk. pose proof (wine_class_rows k Hwine Hk). lia. }
    exists L. split_and!; [done..| |].
    + rewrite (post_training_input _ _ _ _ _ _ (post_after _ _ _ _ _ _ HL)).
      rewrite n_vectors_class_dict.
      destruct (Hex 0 "A"%string) as (X0 & _ & Hin0 & _ & Hl0 & _);
        [rewrite enumerate_class_labels, !elem_of_cons; auto|].
      destruct (Hex 1 "B"%string) as (X1 & _ & Hin1 & _ & Hl1 & _);
        [rewrite enumerate_class_labels, !elem_of_cons; auto|].
      destruct (Hex 2 "C"%string) as (X2 & _ & Hin2 & _ & Hl2 & _);
        [rewrite enumerate_class_labels, !elem_of_cons; auto|].
      rewrite (post_training_input _ _ _ _ _ _ (post_after _ _ _ _ _ _ HL))
        in Hin0, Hin1, Hin2.
      rewrite (class_dict_lookup _ 0) in Hin0
        by (rewrite enumerate_class_labels, !elem_of_cons; auto).
      rewrite (class_dict_lookup _ 1) in Hin1
        by (rewrite enumerate_class_labels, !elem_of_cons; auto).
      rewrite (class_dict_lookup _ 2) in Hin2
        by (rewrite enumerate_class_labels, !elem_of_cons; auto).
      injection Hin0 as ->. injection Hin1 as ->. injection Hin2 as ->.
      rewrite Hl0, Hl1, Hl2. done.
    + rewrite (post_test_input _ _ _ _ _ _ (post_after _ _ _ _ _ _ HL)).
      rewrite n_vectors_class_dict.
      destruct (Hex 0 "A"%string) as (_ & X0 & _ & Hin0 & _ & Hl0 & _);
        [rewrite enumerate_class_labels, !elem_of_cons; auto|].
      destruct (Hex 1 "B"%string) as (_ & X1 & _ & Hin1 & _ & Hl1 & _);
        [rewrite enumerate_class_labels, !elem_of_cons; auto|].
      destruct (Hex 2 "C"%string) as (_ & X2 & _ & Hin2 & _ & Hl2 & _);
        [rewrite enumerate_class_labels, !elem_of_cons; auto|].
      rewrite (post_test_input _ _ _ _ _ _ (post_after _ _ _ _ _ _ HL))
        in Hin0, Hin1, Hin2.
      rewrite (class_dict_lookup _ 0) in Hin0
        by (rewrite enumerate_class_labels, !elem_of_cons; auto).
      rewrite (class_dict_lookup _ 1) in Hin1
        by (rewrite enumerate_class_labels, !elem_of_cons; auto).
      rewrite (class_dict_lookup _ 2) in Hin2
        by (rewrite enumerate_class_labels, !elem_of_cons; auto).
      injection Hin0 as ->. injection Hin1 as ->. injection Hin2 as ->.
      rewrite Hl0, Hl1, Hl2. done.
Qed.

Lemma Wine_partition_sizes_witness :
  ∃ L,
    Wine (H:=Toy.env) 20 10 4 Toy.world0
    = (inr (sample_train L, training_input L, test_input L, class_labels),
       Toy.world0) ∧
    exact_partitions (H:=Toy.env) 20 10 4 L ∧
    n_vectors (training_input L) = 60 ∧
    n_vectors (test_input L) = 30.
Proof.
  exact (proj2 (@Wine_partition_sizes Toy.env Toy_env_ok)
           Toy_wine_shaped Toy.world0).
Defined.

(** C6. When a class has fewer rows in the training split than the
    training and testing sizes together ask for, Wine still returns (no
    exception is raised) and the partitions of that class are shorter than
    requested: together they hold exactly the rows the class has. *)
Theorem Wine_silently_truncates `{Extern} `{!ExternOk} d
    (training_size test_size n : Z) (w : World) k key :
  length load_wine.1 = length load_wine.2 →
  rectangular d load_wine.1 →
  Nat.max (length load_wine.1) d ≤ 500 →
  (0 < test_size < Z.of_nat (length load_wine.1))%Z →
  (1 ≤ n ≤
     Z.of_nat (Nat.min (length load_wine.1 - Z.to_nat test_size) d))%Z →
  (0 ≤ training_size)%Z →
  (k, key) ∈ enumerate class_labels →
  length (class_rows test_size k)
  < Z.to_nat training_size + Z.to_nat test_size →
  ∃ L Xtr Xte,
    Wine training_size test_size n w
    = (inr (sample_train L, training_input L, test_input L, class_labels),
       w) ∧
    training_input L !! key = Some Xtr ∧
    test_input L !! key = Some Xte ∧
    length Xtr
    = Nat.min (Z.to_nat training_size) (length (class_rows test_size k)) ∧
    length Xte
    = Nat.min (Z.to_nat test_size)
        (length (class_rows test_size k) - Z.to_nat training_size) ∧
    length Xtr + length Xte = length (class_rows test_size k) ∧
    (length Xtr < Z.to_nat training_size ∨
     length Xte < Z.to_nat test_size).
Proof.
  intros Hlen Hrect Hsmall Hs Hn Ht Hk Hfew.
  destruct (Wine_body_succeeds d training_size test_size n w
              Hlen Hrect Hsmall Hs Hn) as [L HL].
  pose proof (Wine_run _ _ _ _ _ _ HL) as Hrun.
  apply Wine_body_inr in HL.
  destruct (Wine_partition_lengths _ _ _ _ _ _ k key HL Ht Hk)
    as (Xtr & Xte & Hin & Hout & Hlin & Hlout).
  exists L, Xtr, Xte. split_and!; try done; lia.
Qed.

Lemma Wine_silently_truncates_witness :
  ∃ L Xtr Xte,
    Wine (H:=Toy.env) 50 10 4 Toy.world0
    = (inr (sample_train L, training_input L, test_input L, class_labels),
       Toy.world0) ∧
    training_input L !! "A"%string = Some Xtr ∧
    test_input L !! "A"%string = Some Xte ∧
    length Xtr = 50 ∧ length Xte = 9.
Proof.
  pose proof Toy_table_length as Hlen.
  change Toy.table with (@load_wine Toy.env).1 in Hlen.
  destruct (@Wine_silently_truncates Toy.env Toy_env_ok 13 50 10 4
              Toy.world0 0 "A"%string)
    as (L & Xtr & Xte & Hrun & Hin & Hout & Hlin & Hlout & _);
    rewrite ?Hlen;
    [reflexivity|exact Toy_table_rectangular|lia|lia|lia|lia
    |rewrite enumerate_class_labels; apply list_elem_of_here
    |vm_compute; lia|].
  exists L, Xtr, Xte. split_and!; [exact Hrun|exact Hin|exact Hout|..].
  - rewrite Hlin. vm_compute. reflexivity.
  - rewrite Hlout. vm_compute. reflexivity.
Defined.

(** C9. Both returned partitions are cut out of the returned sample_train
    array: every vector of the testing partition (and of the training
    partition) is a row of it. The held-out test split reaches the
    returned values through the fitted min-max scaler only: two runs of the
    body of Wine on the same training split and labels, whatever their
    test splits, return the same array and partitions as soon as their
    fitted min-max scalers agree. *)
Theorem Wine_partitions_sliced_from_sample_train `{Extern} :
  (∀ (training_size test_size n : Z) (w w' : World)
     (r : ndarray * Dataset * Dataset * list string) key X,
     Wine training_size test_size n w = (inr r, w') →
     r.1.1.2 !! key = Some X ∨ r.1.2 !! key = Some X →
     X ⊆ r.1.1.1) ∧
  (∀ (training_size test_size n : Z) D T
     (sample_train0 : ndarray) (label_train : list nat)
     (sample_test0 sample_test0' : ndarray) (label_test label_test' : list nat)
     (w w1 w2 : World) (L1 L2 : Wine_locals),
     Wine_after_split training_size test_size n D T
       sample_train0 sample_test0 label_train label_test w = (inr L1, w1) →
     Wine_after_split training_size test_size n D T
       sample_train0 sample_test0' label_train label_test' w = (inr L2, w2) →
     minmax_scale L1 = minmax_scale L2 →
     sample_train L1 = sample_train L2 ∧
     training_input L1 = training_input L2 ∧
     test_input L1 = test_input L2).
Proof.
  split.
  - intros t s n w w' r key X (L & HL%Wine_body_inr & ->)%Wine_inr. simpl.
    pose proof (post_after _ _ _ _ _ _ HL) as HL'.
    intros [HX|HX];
      [by eapply training_input_subseteq|by eapply test_input_subseteq].
  - intros t s n D T tr0 ltr te0 te0' lte lte' w w1 w2 L1 L2 H1 H2 Hmm.
    apply Wine_after_split_inr in H1 as (_ & _ & Htr1 & _ & Hl1 & _ & P1).
    apply Wine_after_split_inr in H2 as (_ & _ & Htr2 & _ & Hl2 & _ & P2).
    assert (std_scale L1 = std_scale L2) as Hstd.
    { pose proof (post_std _ _ _ _ _ _ P1) as E1.
      pose proof (post_std _ _ _ _ _ _ P2) as E2.
      rewrite Htr1 in E1. rewrite Htr2 in E2. congruence. }
    assert (sample_train1 L1 = sample_train1 L2) as Hx1.
    { rewrite (post_train1 _ _ _ _ _ _ P1), (post_train1 _ _ _ _ _ _ P2).
      congruence. }
    assert (pca L1 = pca L2) as Hpca.
    { pose proof (post_pca _ _ _ _ _ _ P1) as E1.
      pose proof (post_pca _ _ _ _ _ _ P2) as E2.
      rewrite Hx1 in E1. congruence. }
    assert (sample_train L1 = sample_train L2) as Hx3.
    { rewrite (post_train _ _ _ _ _ _ P1), (post_train _ _ _ _ _ _ P2),
        (post_train2 _ _ _ _ _ _ P1), (post_train2 _ _ _ _ _ _ P2).
      congruence. }
    split_and!; [done|..].
    + rewrite (post_training_input _ _ _ _ _ _ P1),
        (post_training_input _ _ _ _ _ _ P2). by rewrite Hx3, Hl1, Hl2.
    + rewrite (post_test_input _ _ _ _ _ _ P1),
        (post_test_input _ _ _ _ _ _ P2). by rewrite Hx3, Hl1, Hl2.
Qed.


(** C10. On a table of at most 500 rows and 500 columns (the wine dataset
    has 178 and 13) the outcome of Wine depends on its three arguments
    only: it is the same in every world, so under every state of numpy's
    global generator and after seeding it with any seed, and Wine leaves
    the world as it found it. The split draws from a private generator
    seeded with 7 and PCA takes its exact solver, which draws nothing. *)
Theorem Wine_independent_of_global_seed `{Extern}
    (training_size test_size n : Z) (w1 w2 : World) (seed1 seed2 : Z) :
  length load_wine.1 ≤ 500 →
  Forall (λ x, length x ≤ 500) load_wine.1 →
  (Wine training_size test_size n w1).1
  = (Wine training_size test_size n w2).1 ∧
  (Wine training_size test_size n w1).2 = w1 ∧
  ((np_random_seed seed1;; Wine training_size test_size n) w1).1
  = ((np_random_seed seed2;; Wine training_size test_size n) w2).1.
Proof.
  intros Hrows Hcols.
  destruct (pure_Wine training_size test_size n Hrows Hcols) as [r Hr].
  split_and!.
  - by rewrite !Hr.
  - by rewrite Hr.
  - unfold mbind, M_bind, np_random_seed, set_np_random. by rewrite !Hr.
Qed.

Lemma Wine_independent_of_global_seed_witness :
  let w2 : @World Toy.env :=
    {| np_random := (5 : @RandomState Toy.env); trace := [Print []] |} in
  (Wine (H:=Toy.env) 20 10 4 Toy.world0).1
  = (Wine (H:=Toy.env) 20 10 4 w2).1 ∧
  (Wine (H:=Toy.env) 20 10 4 Toy.world0).2 = Toy.world0 ∧
  ((np_random_seed (H:=Toy.env) 10598;; Wine (H:=Toy.env) 20 10 4)
     Toy.world0).1
  = ((np_random_seed (H:=Toy.env) 1;; Wine (H:=Toy.env) 20 10 4) w2).1.
Proof.
  intros w2.
  apply (@Wine_independent_of_global_seed Toy.env 20 10 4 Toy.world0 w2
           10598 1).
  - pose proof Toy_table_length as Hlen.
    change Toy.table with (@load_wine Toy.env).1 in Hlen.
    rewrite Hlen. lia.
  - change (Forall (λ x, length x ≤ 500) Toy.table).
    eapply Forall_impl; [exact Toy_table_rectangular|].
    intros x Hx. simpl in Hx. lia.
Defined.

(** C4. Two runs of the dataset preparation with the same parameters
    produce the same partitioned datasets. On a table of at most 500 rows
    and 500 columns (the wine dataset has 178 and 13), a second call of
    Wine made in the state the first call left, without seeding again,
    returns what the first returned; a second run of cell 2 in the same
    process builds the classification input the first built, and so does
    a run of cell 2 in any other process; cell 2 leaves the global
    generator as np.random.seed(random_seed) set it. *)
Theorem dataset_preparation_deterministic `{Extern}
    (training_size test_size n : Z) (w1 w2 : World) :
  length load_wine.1 ≤ 500 →
  Forall (λ x, length x ≤ 500) load_wine.1 →
  let run := Wine training_size test_size n in
  (run (run w1).2).1 = (run w1).1 ∧
  (cell2 (cell2 w1).2).1 = (cell2 w1).1 ∧
  (cell2 w1).1 = (cell2 w2).1 ∧
  (cell2 w1).2 = seeded w1.
Proof.
  intros Hrows Hcols run. unfold run.
  destruct (pure_Wine training_size test_size n Hrows Hcols) as [r Hr].
  destruct (pure_Wine training_dataset_size testing_dataset_size feature_dim
              Hrows Hcols) as [r2 Hr2].
  assert (∀ w, cell2 w
               = (match r2 with
                  | inl e => inl e
                  | inr r => inr (input_of r, params0)
                  end, seeded w)) as Hcell.
  { intros w. unfold cell2, mbind, M_bind, np_random_seed, set_np_random.
    simpl. fold (seeded w). rewrite Hr2. by destruct r2. }
  split_and!.
  - by rewrite !Hr.
  - by rewrite !Hcell.
  - by rewrite !Hcell.
  - by rewrite Hcell.
Qed.

Lemma dataset_preparation_deterministic_witness :
  let w : @World Toy.env :=
    {| np_random := (5 : @RandomState Toy.env); trace := [] |} in
  (Wine (H:=Toy.env) 20 10 4 (Wine (H:=Toy.env) 20 10 4 w).2).1
  = (Wine (H:=Toy.env) 20 10 4 w).1 ∧
  (cell2 (H:=Toy.env) w).1 = (cell2 (H:=Toy.env) Toy.world0).1.
Proof.
  intros w.
  destruct (@dataset_preparation_deterministic Toy.env 20 10 4 w Toy.world0)
    as (H1 & _ & H3 & _).
  - change (length Toy.table ≤ 500). rewrite Toy_table_length. lia.
  - change (Forall (λ x, length x ≤ 500) Toy.table).
    eapply Forall_impl; [exact Toy_table_rectangular|].
    simpl. intros x ->. lia.
  - split; [exact H1|exact H3].
Defined.

(** The size bound is needed, and repeatability is not built into the
    embedding: on a table of 502 rows PCA takes its randomized solver,
    which draws from the global generator, and a second call of Wine in the
    state the first one left returns another sample_train. *)
Example second_call_differs_on_large_table :
  let w : @World ToyRuns.random_pca :=
    {| np_random := (0 : @RandomState ToyRuns.random_pca); trace := [] |} in
  ∃ x y,
    first_vector (Wine (H:=ToyRuns.random_pca) 1 1 1 w).1 = Some x ∧
    first_vector (Wine (H:=ToyRuns.random_pca) 1 1 1
                    (Wine (H:=ToyRuns.random_pca) 1 1 1 w).2).1 = Some y ∧
    x ≠ y.
Proof.
  intros w. eexists _, _. split_and!.
  - vm_compute. reflexivity.
  - vm_compute. reflexivity.
  - apply (bool_decide_eq_false_1 _). vm_compute. reflexivity.
Qed.

(** ** The standardisation is fitted on the training split *)

(** X16. The standardisation of Wine is fitted on the training split alone
    and the one fitted scaler transforms both splits: fitting consults
    nothing of the world, the training and the held-out split are
    transformed by the same scaler, and with any other held-out split (and
    any other sizes, labels of the held-out split and state of the world)
    the fitted scaler and the standardised training split are the same. *)
Theorem standardization_ignores_test_split `{Extern}
    (training_size test_size n : Z) (w w' : World) (L : Wine_locals) :
  Wine_body training_size test_size n w = (inr L, w') →
  StandardScaler.fit (sample_train0 L) w = (inr (std_scale L), w) ∧
  sample_train1 L
  = StandardScaler.transform (std_scale L) (sample_train0 L) ∧
  sample_test1 L
  = StandardScaler.transform (std_scale L) (sample_test0 L) ∧
  (∀ t' s' n' D T test label_test' w0 w0' L',
     Wine_after_split t' s' n' D T (sample_train0 L) test
       (label_train L) label_test' w0 = (inr L', w0') →
     std_scale L' = std_scale L ∧ sample_train1 L' = sample_train1 L).
Proof.
  intros HL%Wine_body_inr.
  pose proof (post_after _ _ _ _ _ _ HL) as HL'.
  pose proof (post_std _ _ _ _ _ _ HL') as Hfit.
  pose proof (post_train1 _ _ _ _ _ _ HL') as H1.
  split_and!; try done; try apply HL'.
  intros t' s' n' D T te lte w0 w0' L' HL2.
  apply Wine_after_split_inr in HL2 as (_ & _ & Htr & _ & _ & _ & P2).
  pose proof (post_std _ _ _ _ _ _ P2) as Hfit2. rewrite Htr in Hfit2.
  pose proof (post_train1 _ _ _ _ _ _ P2) as H2. rewrite Htr in H2.
  assert (std_scale L' = std_scale L) as Heq.
  { apply StandardScaler_fit_inr in Hfit as (_ & _ & _ & ->).
    by apply StandardScaler_fit_inr in Hfit2 as (_ & _ & _ & ->). }
  split; [done|]. by rewrite H2, H1, Heq.
Qed.

Lemma standardization_ignores_test_split_witness :
  ∃ L,
    Wine_body (H:=Toy.env) 20 10 4 Toy.world0 = (inr L, Toy.world0) ∧
    StandardScaler.fit (H:=Toy.env) (sample_train0 L) Toy.world0
    = (inr (std_scale L), Toy.world0) ∧
    sample_test1 L
    = StandardScaler.transform (std_scale L) (sample_test0 L).
Proof.
  destruct (Toy_Wine_body_succeeds 20 Toy.world0) as [L HL].
  exists L. split; [exact HL|].
  destruct (@standardization_ignores_test_split Toy.env 20 10 4
              Toy.world0 Toy.world0 L HL) as (Hfit & _ & Hte & _).
  split; [exact Hfit|exact Hte].
Defined.

(** ** Cells 2 to 4 *)

Section notebook_run.
Context `{Extern} `{!ExternOk}.

Lemma wine_Wine_run (w : World) :
  wine_shaped →
  ∃ L, Wine training_dataset_size testing_dataset_size feature_dim w
       = (inr (sample_train L, training_input L, test_input L,
               class_labels), w).
Proof.
  intros [Hn Hrect HT].
  destruct (Wine_body_succeeds 13 training_dataset_size
              testing_dataset_size feature_dim w) as [L HL];
    rewrite ?Hn, ?HT; try done;
    unfold testing_dataset_size, feature_dim; try lia.
  exists L. by apply Wine_run.
Qed.

Lemma setitem2_feature_map (params : Params) inner name (w : World) :
  params !! "feature_map"%string = Some inner →
  setitem2 params "feature_map" "name" (PStr name) w
  = (inr (<["feature_map"%string :=
             <["name"%string := PStr name]> inner]> params), w).
Proof.
  intros Hfm. unfold setitem2.
  by erewrite bind_run by by apply of_option_run.
Qed.

Lemma call_run_algorithm_run params ci (w : World) r g' :
  run_algorithm params ci (np_random w) = (inr r, g') →
  call_run_algorithm params ci w
  = (inr r, {| np_random := g';
               trace := trace w ++ [RunAlgorithm params ci] |}).
Proof. intros Hr. unfold call_run_algorithm. by rewrite Hr. Qed.
End notebook_run.

(** ** What each cell does with the outcome of its calls *)

Section notebook_cells.
Context `{Extern}.

Lemma bind_fail {A B} (m : M A) (f : A → M B) w e w1 :
  m w = (inl e, w1) → (m ≫= f) w = (inl e, w1).
Proof. unfold mbind, M_bind. by intros ->. Qed.

Lemma cell2_returns w r w1 :
  Wine training_dataset_size testing_dataset_size feature_dim (seeded w)
  = (inr r, w1) →
  cell2 w = (inr (input_of r, params0), w1).
Proof.
  intros Hr. unfold cell2. erewrite bind_run by reflexivity.
  by erewrite bind_run by exact Hr.
Qed.

Lemma cell2_raises w e w1 :
  Wine training_dataset_size testing_dataset_size feature_dim (seeded w)
  = (inl e, w1) →
  cell2 w = (inl e, w1).
Proof.
  intros Hr. unfold cell2. erewrite bind_run by reflexivity.
  by erewrite bind_fail by exact Hr.
Qed.

Lemma cell3_run ci (w : World) o g1 :
  run_algorithm (with_feature_map "RawFeatureVector") ci (np_random w)
  = (o, g1) →
  let called :=
    trace w ++ [RunAlgorithm (with_feature_map "RawFeatureVector") ci] in
  cell3 ci params0 w
  = match run_outcome o with
    | inl e => (inl e, {| np_random := g1; trace := called |})
    | inr acc =>
        (inr (with_feature_map "RawFeatureVector"),
         {| np_random := g1;
            trace := called ++
              [Print [PStr "VQC accuracy with RawFeatureVector: "; acc]] |})
    end.
Proof.
  intros Hr called. unfold cell3.
  erewrite bind_run
    by (apply (setitem2_feature_map _ {[ "name"%string := PNone ]});
        reflexivity).
  rewrite insert_singleton_eq. fold (with_feature_map "RawFeatureVector").
  unfold mbind at 1, M_bind at 1. unfold call_run_algorithm at 1.
  rewrite Hr. simpl. destruct o as [e|res]; [done|]. simpl.
  unfold mbind at 1, M_bind at 1, getitem.
  destruct (res !! "testing_accuracy"%string) as [acc|]; [|done].
  done.
Qed.

Lemma cell4_run ci (w : World) o g2 :
  run_algorithm (with_feature_map "SecondOrderExpansion") ci (np_random w)
  = (o, g2) →
  let called :=
    trace w ++ [RunAlgorithm (with_feature_map "SecondOrderExpansion") ci] in
  cell4 ci (with_feature_map "RawFeatureVector") w
  = match run_outcome o with
    | inl e => (inl e, {| np_random := g2; trace := called |})
    | inr acc =>
        (inr (with_feature_map "SecondOrderExpansion"),
         {| np_random := g2;
            trace := called ++
              [Print [PStr "Test accuracy with SecondOrderExpansion: ";
                      acc]] |})
    end.
Proof.
  intros Hr called. unfold cell4.
  erewrite bind_run
    by (apply (setitem2_feature_map _
                 {[ "name"%string := PStr "RawFeatureVector" ]});
        unfold with_feature_map; apply lookup_insert_eq).
  rewrite insert_singleton_eq.
  assert (<["feature_map"%string :=
             {[ "name"%string := PStr "SecondOrderExpansion" ]}]>
            (with_feature_map "RawFeatureVector")
          = with_feature_map "SecondOrderExpansion") as ->
    by (unfold with_feature_map; apply insert_insert_eq).
  unfold mbind at 1, M_bind at 1. unfold call_run_algorithm at 1.
  rewrite Hr. simpl. destruct o as [e|res]; [done|]. simpl.
  unfold mbind at 1, M_bind at 1, getitem.
  destruct (res !! "testing_accuracy"%string) as [acc|]; [|done].
  done.
Qed.
End notebook_cells.

(** C8. On a table with the shape of the wine dataset, Wine returns in
    cell 2, and whenever the two calls the notebook makes to run_algorithm
    (the first with the feature map RawFeatureVector, the second with
    SecondOrderExpansion, both on the one classification input built from
    what Wine returned) each return a result record holding a
    testing_accuracy, the notebook calls run_algorithm exactly twice, in
    that order, and after each call prints the testing accuracy that call
    returned. Nothing is assumed of run_algorithm on any other arguments. *)
Theorem notebook_runs_classifier_twice `{Extern} `{!ExternOk} (w : World) :
  wine_shaped →
  ∃ r,
    Wine training_dataset_size testing_dataset_size feature_dim (seeded w)
    = (inr r, seeded w) ∧
    ∀ (r1 r2 : Result) (g1 g2 : RandomState) (a1 a2 : pyval),
      run_algorithm (with_feature_map "RawFeatureVector") (input_of r)
        (RandomState_init random_seed) = (inr r1, g1) →
      r1 !! "testing_accuracy"%string = Some a1 →
      run_algorithm (with_feature_map "SecondOrderExpansion") (input_of r)
        g1 = (inr r2, g2) →
      r2 !! "testing_accuracy"%string = Some a2 →
      notebook w
      = (inr tt,
         {| np_random := g2;
            trace :=
              trace w ++
              [RunAlgorithm (with_feature_map "RawFeatureVector")
                 (input_of r);
               Print [PStr "VQC accuracy with RawFeatureVector: "; a1];
               RunAlgorithm (with_feature_map "SecondOrderExpansion")
                 (input_of r);
               Print [PStr "Test accuracy with SecondOrderExpansion: ";
                      a2]] |}).
Proof.
  intros Hwine.
  destruct (wine_Wine_run (seeded w) Hwine) as [L HL].
  eexists. split; [exact HL|].
  intros r1 r2 g1 g2 a1 a2 Hr1 Ha1 Hr2 Ha2.
  unfold notebook. erewrite bind_run by (apply cell2_returns; exact HL).
  simpl.
  erewrite bind_run
    by (rewrite (cell3_run _ (seeded w) _ _ Hr1); simpl; rewrite Ha1;
        reflexivity).
  erewrite bind_run
    by (erewrite cell4_run by exact Hr2; simpl; rewrite Ha2; reflexivity).
  unfold mret, M_ret. simpl. by rewrite <-!app_assoc.
Qed.

Lemma notebook_runs_classifier_twice_witness :
  ∃ ci a1 a2 g,
    notebook (H:=Toy.env) Toy.world0
    = (inr tt,
       {| np_random := g;
          trace :=
            [RunAlgorithm (with_feature_map "RawFeatureVector") ci;
             Print [PStr "VQC accuracy with RawFeatureVector: "; a1];
             RunAlgorithm (with_feature_map "SecondOrderExpansion") ci;
             Print [PStr "Test accuracy with SecondOrderExpansion: ";
                    a2]] |}).
Proof.
  destruct (@notebook_runs_classifier_twice Toy.env Toy_env_ok Toy.world0
              Toy_wine_shaped) as (r & _ & Hrun).
  eexists _, _, _, _.
  eapply Hrun; [reflexivity|apply lookup_singleton_eq
              |reflexivity|apply lookup_singleton_eq].
Defined.

(** Two test splits that fit the same min-max scaler: the returned values
    agree although the transformed test splits differ. *)
Lemma Wine_partitions_sliced_from_sample_train_witness :
  let tr0 : ndarray :=
    [[Qc_of_Z 0; Qc_of_Z 0]; [Qc_of_Z 4; Qc_of_Z 2]; [Qc_of_Z 2; Qc_of_Z 4]] in
  let te0 : ndarray := [[Qc_of_Z 1; Qc_of_Z 1]] in
  let te0' : ndarray := [[Qc_of_Z 3; Qc_of_Z 3]] in
  ∃ L1 L2,
    Wine_after_split (H:=Toy.env) 1 1 2 [] [] tr0 te0 [0; 1; 2] [0]
      Toy.world0 = (inr L1, Toy.world0) ∧
    Wine_after_split (H:=Toy.env) 1 1 2 [] [] tr0 te0' [0; 1; 2] [1]
      Toy.world0 = (inr L2, Toy.world0) ∧
    sample_test L1 ≠ sample_test L2 ∧
    sample_train L1 = sample_train L2 ∧
    training_input L1 = training_input L2 ∧
    test_input L1 = test_input L2.
Proof.
  intros tr0 te0 te0'.
  assert (∀ te lte, pure (Wine_after_split (H:=Toy.env) 1 1 2 [] []
                            tr0 te [0; 1; 2] lte)) as Hpure.
  { intros te lte. apply pure_Wine_after_split; [simpl; lia|].
    repeat constructor; simpl; lia. }
  eexists _, _.
  split; [apply pure_run; [apply Hpure|vm_compute; reflexivity]|].
  split; [apply pure_run; [apply Hpure|vm_compute; reflexivity]|].
  split; [apply (bool_decide_unpack _); vm_compute; exact I|].
  eapply (proj2 (@Wine_partitions_sliced_from_sample_train Toy.env)
            1%Z 1%Z 2%Z [] [] tr0 [0; 1; 2] te0 te0' [0] [1]
            Toy.world0 Toy.world0 Toy.world0);
    [apply pure_run; [apply Hpure|vm_compute; reflexivity]..|reflexivity].
Defined.


(** * Further properties of the cells *)

(** ** Slices with bounds of any sign *)

Lemma slice_bound_0 len : slice_bound len 0 = 0.
Proof. unfold slice_bound. case_decide; lia. Qed.

Lemma py_slice_head {A} (l : list A) (t : Z) :
  py_slice l 0 t = take (slice_bound (length l) t) l.
Proof. unfold py_slice. by rewrite slice_bound_0, drop_0, Nat.sub_0_r. Qed.

Lemma slice_bound_le len i : slice_bound len i ≤ len.
Proof. unfold slice_bound. case_decide; lia. Qed.

(** l[:t] and l[t:u] are two pieces of l cut at the same place. *)
Lemma py_slices_sublist {A} (l : list A) (t u : Z) :
  py_slice l 0 t ++ py_slice l t u `sublist_of` l.
Proof.
  rewrite py_slice_head. unfold py_slice.
  set (a := slice_bound (length l) t).
  set (b := slice_bound (length l) u).
  assert (take a l ++ take (b - a) (drop a l)
          `sublist_of` take a l ++ drop a l) as Hsub
    by (apply sublist_app; [done|apply sublist_take]).
  by rewrite take_drop in Hsub.
Qed.

Lemma py_slice_head_negative {A} (l : list A) (t : Z) :
  (t < 0)%Z → py_slice l 0 t = take (length l - Z.to_nat (- t)) l.
Proof.
  intros Ht. rewrite py_slice_head. f_equal. unfold slice_bound.
  case_decide; lia.
Qed.

Lemma py_slices_app {A} (l : list A) (t s : Z) :
  (0 ≤ t)%Z → (0 ≤ s)%Z →
  py_slice l 0 t ++ py_slice l t (t + s)
  = take (Z.to_nat t + Z.to_nat s) l.
Proof.
  intros Ht Hs. rewrite !py_slice_nonneg by lia.
  change (Z.to_nat 0) with 0. rewrite drop_0, Nat.sub_0_r.
  replace (Z.to_nat (t + s) - Z.to_nat t) with (Z.to_nat s) by lia.
  destruct (decide (Z.to_nat t ≤ length l)) as [Hle|Hgt].
  - rewrite <-(take_drop (Z.to_nat t) l) at 3.
    rewrite take_app_add'; [done|]. rewrite length_take. lia.
  - rewrite drop_ge, take_nil, app_nil_r by lia.
    by rewrite !take_ge by lia.
Qed.

Section partitions_any_sign.
Context `{Extern} `{!ExternOk}.

Lemma partition_rows_any t s k :
  (0 < s < Z.of_nat (length load_wine.1))%Z →
  training_rows t s k ++ test_rows t s k `sublist_of` class_rows s k ∧
  class_rows s k `sublist_of` (split_indices s).1 ∧
  NoDup (training_rows t s k ++ test_rows t s k) ∧
  (∀ i, i ∈ training_rows t s k ++ test_rows t s k →
        load_wine.2 !! i = Some k ∧ i ∈ (split_indices s).1 ∧
        i ∉ (split_indices s).2) ∧
  (∀ k' i, i ∈ training_rows t s k → i ∉ test_rows t s k').
Proof.
  intros Hs. destruct (class_rows_facts s k Hs) as [Hnd Hin].
  pose proof (split_indices_partition s Hs) as (_ & _ & Hsplit).
  pose proof (py_slices_sublist (class_rows s k) t (t + s)) as Hsub.
  fold (training_rows t s k) (test_rows t s k) in Hsub.
  pose proof (sublist_NoDup _ _ Hnd Hsub) as Hnd'.
  split_and!; [done|apply sublist_filter|done| |].
  - intros i Hi. eapply sublist_subseteq in Hi; [|exact Hsub].
    destruct (Hin i Hi) as [Hi' Hk]. split_and!; [done..|].
    by apply Hsplit.
  - intros k' i Hi Hi'. destruct (decide (k = k')) as [<-|Hne].
    + apply NoDup_app in Hnd' as (_ & Hdisj & _). by apply (Hdisj i).
    + assert (i ∈ class_rows s k) as Hc.
      { eapply sublist_subseteq; [exact Hsub|]. apply elem_of_app. by left. }
      apply py_slice_subseteq in Hi'.
      apply Hin in Hc as [_ Hk].
      apply (class_rows_facts s k' Hs) in Hi' as [_ Hk']. congruence.
Qed.
End partitions_any_sign.

(** X1. For every call of Wine that returns, whatever the sign of
    training_size, the two partitions of a class are cut from the class rows
    at the same place: together they have no row of the table twice, and no
    row that feeds a training partition feeds a testing partition of any
    class. *)
Theorem Wine_partitions_never_overlap `{Extern} `{!ExternOk}
    (training_size test_size n : Z) (w w' : World) (L : Wine_locals) :
  Wine_body training_size test_size n w = (inr L, w') →
  ∀ k key, (k, key) ∈ enumerate class_labels →
    training_input L !! key
      = Some (row_pipeline L
                <$> base_rows (training_rows training_size test_size k)) ∧
    test_input L !! key
      = Some (row_pipeline L
                <$> base_rows (test_rows training_size test_size k)) ∧
    NoDup (training_rows training_size test_size k
           ++ test_rows training_size test_size k) ∧
    (∀ k' i, i ∈ training_rows training_size test_size k →
             i ∉ test_rows training_size test_size k').
Proof.
  intros HL%Wine_body_inr k key Hk.
  pose proof (post_test_size _ _ _ _ _ _ HL) as Hs.
  destruct (Wine_partition_rows _ _ _ _ _ _ k key HL Hk) as [Hin Hout].
  destruct (partition_rows_any training_size test_size k Hs)
    as (_ & _ & Hnd & _ & Hdisj).
  done.
Qed.

Lemma Wine_partitions_never_overlap_witness :
  ∃ L,
    Wine_body (H:=Toy.env) (-9) 10 4 Toy.world0 = (inr L, Toy.world0) ∧
    NoDup (training_rows (H:=Toy.env) (-9) 10 0
           ++ test_rows (H:=Toy.env) (-9) 10 0) ∧
    (∀ k' i, i ∈ training_rows (H:=Toy.env) (-9) 10 0 →
             i ∉ test_rows (H:=Toy.env) (-9) 10 k').
Proof.
  destruct (Toy_Wine_body_succeeds (-9) Toy.world0) as [L HL].
  exists L. split; [exact HL|].
  destruct (@Wine_partitions_never_overlap Toy.env Toy_env_ok (-9) 10 4
              Toy.world0 Toy.world0 L HL 0 "A"%string)
    as (_ & _ & Hnd & Hdisj).
  - rewrite enumerate_class_labels. apply list_elem_of_here.
  - split; [exact Hnd|exact Hdisj].
Defined.

(** X2. The partition stored under the key of class k holds rows of class k
    only: every vector of training_input[key] and test_input[key] is the
    transform of a row of the table whose target is k, the rows come from
    the training split and keep its order, and none is in the held-out
    split. *)
Theorem Wine_partitions_class_pure `{Extern} `{!ExternOk}
    (training_size test_size n : Z) (w w' : World) (L : Wine_locals) :
  Wine_body training_size test_size n w = (inr L, w') →
  ∀ k key, (k, key) ∈ enumerate class_labels →
    ∃ idx_train idx_test,
      training_input L !! key
        = Some (row_pipeline L <$> base_rows idx_train) ∧
      test_input L !! key = Some (row_pipeline L <$> base_rows idx_test) ∧
      idx_train ++ idx_test `sublist_of` (split_indices test_size).1 ∧
      Forall (λ i, load_wine.2 !! i = Some k ∧
                   i ∉ (split_indices test_size).2)
        (idx_train ++ idx_test).
Proof.
  intros HL%Wine_body_inr k key Hk.
  pose proof (post_test_size _ _ _ _ _ _ HL) as Hs.
  destruct (Wine_partition_rows _ _ _ _ _ _ k key HL Hk) as [Hin Hout].
  destruct (partition_rows_any training_size test_size k Hs)
    as (Hsub & Hsub' & _ & Hlab & _).
  eexists _, _. split_and!; [exact Hin|exact Hout|by etrans|].
  apply Forall_forall. intros i Hi. destruct (Hlab i Hi) as (? & _ & ?).
  done.
Qed.

Lemma Wine_partitions_class_pure_witness :
  ∃ L idx_train idx_test,
    Wine_body (H:=Toy.env) 20 10 4 Toy.world0 = (inr L, Toy.world0) ∧
    training_input L !! "B"%string
      = Some (row_pipeline L <$> base_rows (H:=Toy.env) idx_train) ∧
    test_input L !! "B"%string
      = Some (row_pipeline L <$> base_rows (H:=Toy.env) idx_test) ∧
    Forall (λ i, (@load_wine Toy.env).2 !! i = Some 1 ∧
                 i ∉ (split_indices (H:=Toy.env) 10).2)
      (idx_train ++ idx_test).
Proof.
  destruct (Toy_Wine_body_succeeds 20 Toy.world0) as [L HL].
  destruct (@Wine_partitions_class_pure Toy.env Toy_env_ok 20 10 4
              Toy.world0 Toy.world0 L HL 1 "B"%string)
    as (idx_train & idx_test & Hin & Hout & _ & Hlab).
  - rewrite enumerate_class_labels. apply list_elem_of_further,
      list_elem_of_here.
  - exists L, idx_train, idx_test.
    split; [exact HL|]. split; [exact Hin|]. split; [exact Hout|exact Hlab].
Defined.

(** X3. Wine does not validate training_size. With a negative training_size
    it returns all the same, and the training partition of a class is
    l[:training_size] in Python's sense: the class rows of the training
    split without their last |training_size| ones. *)
Theorem Wine_negative_training_size `{Extern} `{!ExternOk} d
    (training_size test_size n : Z) (w : World) k key :
  length load_wine.1 = length load_wine.2 →
  rectangular d load_wine.1 →
  Nat.max (length load_wine.1) d ≤ 500 →
  (0 < test_size < Z.of_nat (length load_wine.1))%Z →
  (1 ≤ n ≤
     Z.of_nat (Nat.min (length load_wine.1 - Z.to_nat test_size) d))%Z →
  (training_size < 0)%Z →
  (k, key) ∈ enumerate class_labels →
  ∃ L Xtr,
    Wine training_size test_size n w
    = (inr (sample_train L, training_input L, test_input L, class_labels),
       w) ∧
    training_input L !! key = Some Xtr ∧
    Xtr = row_pipeline L
            <$> base_rows
                  (take (length (class_rows test_size k)
                         - Z.to_nat (- training_size))
                        (class_rows test_size k)) ∧
    length Xtr
    = length (class_rows test_size k) - Z.to_nat (- training_size).
Proof.
  intros Hlen Hrect Hsmall Hs Hn Ht Hk.
  destruct (Wine_body_succeeds d training_size test_size n w
              Hlen Hrect Hsmall Hs Hn) as [L HL].
  pose proof (Wine_run _ _ _ _ _ _ HL) as Hrun.
  apply Wine_body_inr in HL.
  destruct (Wine_partition_rows _ _ _ _ _ _ k key HL Hk) as [Hin _].
  unfold training_rows in Hin. rewrite py_slice_head_negative in Hin by done.
  eexists L, _. split_and!; [exact Hrun|exact Hin|done|].
  unfold base_rows. rewrite !length_fmap, length_take. lia.
Qed.

Lemma Wine_negative_training_size_witness :
  ∃ L Xtr,
    Wine (H:=Toy.env) (-9) 10 4 Toy.world0
    = (inr (sample_train L, training_input L, test_input L, class_labels),
       Toy.world0) ∧
    training_input L !! "A"%string = Some Xtr ∧
    length Xtr = 50.
Proof.
  pose proof Toy_table_length as Hlen.
  change Toy.table with (@load_wine Toy.env).1 in Hlen.
  destruct (@Wine_negative_training_size Toy.env Toy_env_ok 13 (-9) 10 4
              Toy.world0 0 "A"%string)
    as (L & Xtr & Hrun & Hin & _ & Hl);
    rewrite ?Hlen;
    [reflexivity|exact Toy_table_rectangular|lia|lia|lia|lia
    |rewrite enumerate_class_labels; apply list_elem_of_here|].
  exists L, Xtr. split_and!; [exact Hrun|exact Hin|].
  rewrite Hl. vm_compute. reflexivity.
Defined.

(** X4. For a non-negative training_size, the training vectors of a class
    followed by its testing vectors are the first training_size + test_size
    rows of that class in the returned sample_train, in order: the testing
    partition continues where the training partition stops. *)
Theorem Wine_partitions_contiguous `{Extern}
    (training_size test_size n : Z) (w w' : World) (L : Wine_locals) :
  (0 ≤ training_size)%Z →
  Wine_body training_size test_size n w = (inr L, w') →
  ∀ k key, (k, key) ∈ enumerate class_labels →
    ∃ Xtr Xte,
      training_input L !! key = Some Xtr ∧
      test_input L !! key = Some Xte ∧
      Xtr ++ Xte
      = take (Z.to_nat training_size + Z.to_nat test_size)
          (mask_rows (sample_train L) (label_mask (label_train L) k)).
Proof.
  intros Ht HL%Wine_body_inr k key Hk.
  pose proof (post_test_size _ _ _ _ _ _ HL) as Hs.
  destruct (post_after _ _ _ _ _ _ HL)
    as [_ _ _ _ _ _ _ _ _ _ Htrain Htest].
  eexists _, _. split_and!.
  - rewrite Htrain. by apply class_dict_lookup.
  - rewrite Htest. by apply class_dict_lookup.
  - simpl. apply py_slices_app; lia.
Qed.

Lemma Wine_partitions_contiguous_witness :
  ∃ L Xtr Xte,
    Wine_body (H:=Toy.env) 20 10 4 Toy.world0 = (inr L, Toy.world0) ∧
    training_input L !! "C"%string = Some Xtr ∧
    test_input L !! "C"%string = Some Xte ∧
    Xtr ++ Xte
    = take 30 (mask_rows (sample_train L) (label_mask (label_train L) 2)).
Proof.
  destruct (Toy_Wine_body_succeeds 20 Toy.world0) as [L HL].
  destruct (@Wine_partitions_contiguous Toy.env 20 10 4 Toy.world0
              Toy.world0 L ltac:(lia) HL 2 "C"%string)
    as (Xtr & Xte & Hin & Hout & Happ).
  - rewrite enumerate_class_labels. do 2 apply list_elem_of_further.
    apply list_elem_of_here.
  - exists L, Xtr, Xte.
    split; [exact HL|]. split; [exact Hin|]. split; [exact Hout|exact Happ].
Defined.

(** X5. The two partitions Wine returns have the same keys, the three class
    labels A, B and C, and no other: a lookup of any other key finds
    nothing (a KeyError in Python). *)
Theorem Wine_partition_keys `{Extern}
    (training_size test_size n : Z) (w w' : World)
    (r : ndarray * Dataset * Dataset * list string) :
  Wine training_size test_size n w = (inr r, w') →
  r.2 = ["A"; "B"; "C"]%string ∧
  ∀ key : string,
    (is_Some (r.1.1.2 !! key) ↔ key ∈ r.2) ∧
    (is_Some (r.1.2 !! key) ↔ key ∈ r.2).
Proof.
  intros (L & HL%Wine_body_inr & ->)%Wine_inr. simpl.
  split; [done|]. intros key.
  destruct (post_after _ _ _ _ _ _ HL)
    as [_ _ _ _ _ _ _ _ _ _ -> ->].
  rewrite enumerate_class_labels. unfold dict_comprehension, class_labels.
  simpl. rewrite !lookup_insert_is_Some', !lookup_empty, !elem_of_cons,
    !elem_of_nil.
  pose proof (@is_Some_None (list (list Qc))) as HNone.
  split; (split;
    [intros [<-|[<-|[<-|?]]]; [auto..|done]
    |intros [->|[->|[->|[]]]]; auto]).
Qed.

Lemma Wine_partition_keys_witness :
  ∃ r,
    Wine (H:=Toy.env) 20 10 4 Toy.world0 = (inr r, Toy.world0) ∧
    is_Some (r.1.1.2 !! "B"%string) ∧
    ¬ is_Some (r.1.2 !! "D"%string).
Proof.
  destruct (Toy_Wine_body_succeeds 20 Toy.world0) as [L HL].
  pose proof (Wine_run (H:=Toy.env) _ _ _ _ _ _ HL) as Hrun.
  eexists. split; [exact Hrun|].
  destruct (@Wine_partition_keys Toy.env 20 10 4 Toy.world0 Toy.world0 _
              Hrun) as [Hlabels Hkeys].
  split.
  - apply (Hkeys "B"%string). rewrite Hlabels.
    apply list_elem_of_further, list_elem_of_here.
  - intros HD. apply (Hkeys "D"%string) in HD. rewrite Hlabels in HD.
    rewrite !elem_of_cons, elem_of_nil in HD.
    destruct HD as [HD|[HD|[HD|[]]]]; discriminate HD.
Defined.

(** X6. A test_size as large as the table or larger is rejected: Wine raises
    ValueError out of train_test_split, before anything is fitted, and
    leaves the world as it was. *)
Theorem Wine_rejects_large_test_size `{Extern}
    (training_size test_size n : Z) (w : World) :
  (Z.of_nat (length load_wine.1) ≤ test_size)%Z →
  Wine training_size test_size n w = (inl ValueError, w).
Proof.
  intros Hs. unfold Wine, Wine_body, train_test_split.
  unfold mbind, M_bind. case_decide; [|done].
  unfold shuffle_split, validate_shuffle_split, mbind, M_bind.
  case_decide; [done|lia].
Qed.

Lemma Wine_rejects_large_test_size_witness :
  Wine (H:=Toy.env) 20 178 4 Toy.world0 = (inl ValueError, Toy.world0).
Proof.
  apply (@Wine_rejects_large_test_size Toy.env).
  pose proof Toy_table_length as Hlen.
  change Toy.table with (@load_wine Toy.env).1 in Hlen.
  rewrite Hlen. lia.
Defined.

(** ** Wine writes nothing to the trace *)

Section silence.
Context `{Extern}.

Lemma silent_pure {A} (m : M A) : pure m → silent m.
Proof. intros [r Hr] w. by rewrite Hr. Qed.

Lemma silent_ret {A} (x : A) : silent (mret x).
Proof. done. Qed.

Lemma silent_bind {A B} (m : M A) (f : A → M B) :
  silent m → (∀ x, silent (f x)) → silent (m ≫= f).
Proof.
  intros Hm Hf w. unfold mbind, M_bind. specialize (Hm w).
  destruct (m w) as [[e|x] w1]; simpl in *; [done|].
  by rewrite Hf.
Qed.

Lemma silent_PCA_fit n X : silent (PCA.fit n X).
Proof.
  unfold PCA.fit.
  apply silent_bind; [apply silent_pure, pure_check_array|]. intros _.
  apply silent_bind; [|intros; apply silent_ret].
  destruct (PCA.solver_is_full n X); [apply silent_pure, pure_of_option|].
  apply silent_bind; [done|]. intros g.
  apply silent_bind; [done|]. intros _.
  apply silent_pure, pure_of_option.
Qed.

Lemma silent_Wine t s n : silent (Wine t s n).
Proof.
  unfold Wine, Wine_body.
  apply silent_bind; [|intros; apply silent_ret].
  apply silent_bind; [apply silent_pure, pure_train_test_split|].
  intros r. unfold Wine_after_split.
  apply silent_bind; [apply silent_pure, pure_StandardScaler_fit|].
  intros sc. apply silent_bind; [apply silent_PCA_fit|].
  intros p. apply silent_bind;
    [apply silent_pure, pure_MinMaxScaler_fit|].
  intros mm. apply silent_ret.
Qed.
End silence.

(** X7. Wine prints nothing and never calls the quantum library: whatever
    its arguments, and whether it returns or raises, the trace of calls and
    prints is afterwards what it was before. *)
Theorem Wine_prints_and_calls_nothing `{Extern}
    (training_size test_size n : Z) (w w' : World)
    (o : exn + ndarray * Dataset * Dataset * list string) :
  Wine training_size test_size n w = (o, w') → trace w' = trace w.
Proof.
  intros Hrun. pose proof (silent_Wine training_size test_size n w) as Hs.
  by rewrite Hrun in Hs.
Qed.

Lemma Wine_prints_and_calls_nothing_witness :
  let w : @World Toy.env :=
    {| np_random := (3 : @RandomState Toy.env); trace := [Print [PNone]] |} in
  trace (Wine (H:=Toy.env) 20 200 4 w).2 = [Print [PNone]] ∧
  trace (Wine (H:=Toy.env) 20 10 4 w).2 = [Print [PNone]].
Proof.
  intros w. split.
  - apply (@Wine_prints_and_calls_nothing Toy.env 20 200 4 w _
             (Wine (H:=Toy.env) 20 200 4 w).1).
    by destruct (Wine (H:=Toy.env) 20 200 4 w).
  - apply (@Wine_prints_and_calls_nothing Toy.env 20 10 4 w _
             (Wine (H:=Toy.env) 20 10 4 w).1).
    by destruct (Wine (H:=Toy.env) 20 10 4 w).
Defined.

(** ** The split keeps every row, with its label *)

Lemma fmap_nth_seq {A} (l : list A) d :
  (λ i, nth i l d) <$> seq 0 (length l) = l.
Proof.
  apply list_eq. intros i. rewrite list_lookup_fmap.
  destruct (decide (i < length l)) as [Hi|Hi].
  - rewrite lookup_seq_lt by done. simpl.
    destruct (lookup_lt_is_Some_2 l i Hi) as [x Hx].
    by rewrite (nth_lookup_Some _ _ d _ Hx), Hx.
  - rewrite lookup_seq_ge by lia. simpl. symmetry.
    apply lookup_ge_None. lia.
Qed.

Lemma zip_fmap_same {A B C} (f : A → B) (g : A → C) (l : list A) :
  zip (f <$> l) (g <$> l) = (λ i, (f i, g i)) <$> l.
Proof.
  induction l as [|x l IH]; [done|]. rewrite !fmap_cons. simpl.
  by f_equal.
Qed.

(** X9. The train/test split of Wine neither loses nor duplicates a sample
    and every sample keeps its label: the rows of the held-out split and of
    the training split, each paired with its label, are a rearrangement of
    the rows of the table paired with their targets. The held-out split has
    test_size rows; the returned sample_train has one row for each of the
    other n_samples - test_size samples. *)
Theorem Wine_split_keeps_every_row `{Extern} `{!ExternOk}
    (training_size test_size n : Z) (w w' : World) (L : Wine_locals) :
  Wine_body training_size test_size n w = (inr L, w') →
  zip (sample_test0 L) (label_test L)
    ++ zip (sample_train0 L) (label_train L)
    ≡ₚ zip load_wine.1 load_wine.2 ∧
  length (sample_test0 L) = Z.to_nat test_size ∧
  length (sample_test L) = Z.to_nat test_size ∧
  length (sample_train L) = length load_wine.1 - Z.to_nat test_size ∧
  length (label_train L) = length (sample_train L).
Proof.
  intros HL%Wine_body_inr.
  pose proof (post_test_size _ _ _ _ _ _ HL) as Hs.
  pose proof (post_lengths _ _ _ _ _ _ HL) as Hlen.
  pose proof (split_indices_partition test_size Hs) as (Hperm & _ & _).
  pose proof (split_indices_facts test_size Hs)
    as (_ & _ & Hltr & Hlte & _).
  pose proof (Wine_rows _ _ _ _ _ _ HL) as (Htr & Hte & Hl).
  destruct HL as [_ _ _ _ Htr0 Hte0 Hltr0 Hlte0 _].
  apply (take_rows_Some _ _ _ []) in Htr0 as [Htr0 _].
  apply (take_rows_Some _ _ _ []) in Hte0 as [Hte0 _].
  apply (take_rows_Some _ _ _ 0) in Hltr0 as [Hltr0 _].
  apply (take_rows_Some _ _ _ 0) in Hlte0 as [Hlte0 _].
  split_and!.
  - rewrite Htr0, Hte0, Hltr0, Hlte0, !zip_fmap_same, <-fmap_app, Hperm.
    rewrite <-zip_fmap_same, fmap_nth_seq, Hlen, fmap_nth_seq. done.
  - by rewrite Hte0, length_fmap.
  - rewrite Hte. unfold base_rows. by rewrite !length_fmap.
  - rewrite Htr. unfold base_rows. by rewrite !length_fmap.
  - rewrite Hl, Htr. unfold base_rows. by rewrite !length_fmap.
Qed.

Lemma Wine_split_keeps_every_row_witness :
  ∃ L,
    Wine_body (H:=Toy.env) 20 10 4 Toy.world0 = (inr L, Toy.world0) ∧
    zip (sample_test0 L) (label_test L)
      ++ zip (sample_train0 L) (label_train L)
      ≡ₚ zip Toy.table wine_target ∧
    length (sample_test L) = 10 ∧
    length (sample_train L) = 168.
Proof.
  destruct (Toy_Wine_body_succeeds 20 Toy.world0) as [L HL].
  exists L. split; [exact HL|].
  destruct (@Wine_split_keeps_every_row Toy.env Toy_env_ok 20 10 4
              Toy.world0 Toy.world0 L HL) as (Hperm & _ & Hte & Htr & _).
  split; [exact Hperm|]. split; [exact Hte|].
  rewrite Htr. pose proof Toy_table_length as Hlen.
  change Toy.table with (@load_wine Toy.env).1 in Hlen.
  rewrite Hlen. reflexivity.
Defined.


(** X10. When the first run fails, by raising an exception or by returning a
    record without testing_accuracy (a KeyError), the notebook stops with
    that exception after this one call to run_algorithm: nothing is printed
    and the second run is never made. *)
Theorem notebook_stops_when_first_run_fails `{Extern} (w w1 : World)
    (r : ndarray * Dataset * Dataset * list string)
    (o : exn + Result) (g1 : RandomState) (err : exn) :
  Wine training_dataset_size testing_dataset_size feature_dim (seeded w)
  = (inr r, w1) →
  run_algorithm (with_feature_map "RawFeatureVector") (input_of r)
    (np_random w1) = (o, g1) →
  run_outcome o = inl err →
  notebook w
  = (inl err,
     {| np_random := g1;
        trace := trace w ++
          [RunAlgorithm (with_feature_map "RawFeatureVector")
             (input_of r)] |}).
Proof.
  intros Hwine Hrun Hout.
  pose proof (silent_Wine training_dataset_size testing_dataset_size
                feature_dim (seeded w)) as Hsilent.
  rewrite Hwine in Hsilent. simpl in Hsilent.
  unfold notebook. erewrite bind_run by by apply cell2_returns.
  simpl. erewrite bind_fail; [done|].
  rewrite (cell3_run _ _ _ _ Hrun), Hout. by rewrite Hsilent.
Qed.

(** X11. When the first run succeeds and the second fails, the notebook stops
    with the second run's exception after two calls to run_algorithm, with
    the first accuracy printed and nothing after it. *)
Theorem notebook_keeps_first_accuracy_when_second_run_fails `{Extern}
    (w w1 : World) (r : ndarray * Dataset * Dataset * list string)
    (o1 o2 : exn + Result) (g1 g2 : RandomState) (acc : pyval) (err : exn) :
  Wine training_dataset_size testing_dataset_size feature_dim (seeded w)
  = (inr r, w1) →
  run_algorithm (with_feature_map "RawFeatureVector") (input_of r)
    (np_random w1) = (o1, g1) →
  run_outcome o1 = inr acc →
  run_algorithm (with_feature_map "SecondOrderExpansion") (input_of r) g1
  = (o2, g2) →
  run_outcome o2 = inl err →
  notebook w
  = (inl err,
     {| np_random := g2;
        trace := trace w ++
          [RunAlgorithm (with_feature_map "RawFeatureVector") (input_of r);
           Print [PStr "VQC accuracy with RawFeatureVector: "; acc];
           RunAlgorithm (with_feature_map "SecondOrderExpansion")
             (input_of r)] |}).
Proof.
  intros Hwine Hrun1 Hout1 Hrun2 Hout2.
  pose proof (silent_Wine training_dataset_size testing_dataset_size
                feature_dim (seeded w)) as Hsilent.
  rewrite Hwine in Hsilent. simpl in Hsilent.
  unfold notebook. erewrite bind_run by by apply cell2_returns.
  simpl. erewrite bind_run
    by (rewrite (cell3_run _ _ _ _ Hrun1), Hout1; reflexivity).
  erewrite bind_fail; [done|].
  rewrite (cell4_run (input_of r) _ o2 g2) by exact Hrun2.
  rewrite Hout2. simpl. rewrite Hsilent. by rewrite <-!app_assoc.
Qed.

(** X12. When Wine raises, the notebook stops with Wine's exception before
    any call to run_algorithm and before any print. *)
Theorem notebook_runs_nothing_when_Wine_fails `{Extern} (w w1 : World)
    (e : exn) :
  Wine training_dataset_size testing_dataset_size feature_dim (seeded w)
  = (inl e, w1) →
  notebook w = (inl e, w1) ∧ trace w1 = trace w.
Proof.
  intros Hwine. split.
  - unfold notebook. by erewrite bind_fail by by apply cell2_raises.
  - pose proof (silent_Wine training_dataset_size testing_dataset_size
                  feature_dim (seeded w)) as Hsilent.
    by rewrite Hwine in Hsilent.
Qed.

Lemma ToyRuns_ok tbl ra : @ExternOk (ToyRuns.with_run tbl ra).
Proof.
  constructor.
  - intros g n. simpl. apply reverse_Permutation.
  - intros n X Hn. simpl. unfold Toy.components.
    case_decide; [by eexists|done].
  - intros n X C. simpl. unfold Toy.components.
    case_decide; [|done]. intros [= <-].
    by rewrite length_fmap, length_seq.
Qed.

Lemma ToyRuns_wine_shaped ra :
  @wine_shaped (ToyRuns.with_run (Toy.table, wine_target) ra).
Proof.
  constructor;
    [exact Toy_table_length|exact Toy_table_rectangular|reflexivity].
Qed.

Lemma notebook_stops_when_first_run_fails_witness :
  let env := ToyRuns.with_run (Toy.table, wine_target) ToyRuns.no_accuracy in
  let w0 : @World env :=
    {| np_random := (0 : @RandomState env); trace := [] |} in
  ∃ ci g,
    notebook (H:=env) w0
    = (inl KeyError,
       {| np_random := g;
          trace := [RunAlgorithm (with_feature_map "RawFeatureVector") ci]
       |}).
Proof.
  intros env w0.
  destruct (@wine_Wine_run env (ToyRuns_ok _ _)
              (seeded (H:=env) w0) (ToyRuns_wine_shaped _)) as [L HL].
  eexists _, _.
  exact (@notebook_stops_when_first_run_fails env w0 _ _ _ _ KeyError
           HL eq_refl eq_refl).
Defined.

Lemma notebook_keeps_first_accuracy_when_second_run_fails_witness :
  let env := ToyRuns.with_run (Toy.table, wine_target) ToyRuns.raw_only in
  let w0 : @World env :=
    {| np_random := (0 : @RandomState env); trace := [] |} in
  ∃ ci g,
    notebook (H:=env) w0
    = (inl ValueError,
       {| np_random := g;
          trace :=
            [RunAlgorithm (with_feature_map "RawFeatureVector") ci;
             Print [PStr "VQC accuracy with RawFeatureVector: "; PFloat 1];
             RunAlgorithm (with_feature_map "SecondOrderExpansion") ci] |}).
Proof.
  intros env w0.
  destruct (@wine_Wine_run env (ToyRuns_ok _ _)
              (seeded (H:=env) w0) (ToyRuns_wine_shaped _)) as [L HL].
  eexists _, _.
  exact (@notebook_keeps_first_accuracy_when_second_run_fails env w0 _ _
           _ _ _ _ (PFloat 1) ValueError HL eq_refl eq_refl eq_refl eq_refl).
Defined.

Lemma notebook_runs_nothing_when_Wine_fails_witness :
  let env := ToyRuns.with_run ToyRuns.short_table ToyRuns.raw_only in
  let w0 : @World env :=
    {| np_random := (0 : @RandomState env); trace := [Print []] |} in
  notebook (H:=env) w0 = (inl ValueError, seeded (H:=env) w0) ∧
  trace (seeded (H:=env) w0) = [Print []].
Proof.
  intros env w0.
  apply (@notebook_runs_nothing_when_Wine_fails env w0).
  reflexivity.
Defined.

(** ** The chemistry notebook *)

Section chemistry.
Context `{Chemistry.Lib}.
Import Chemistry.

Lemma for_in_prints (v : value) (l : list value) :
  iter v = Some l →
  for_in v (λ line, print (str line)) = (inr (), Print ∘ str <$> l).
Proof.
  unfold for_in. intros ->. induction l as [|x l IH]; [done|].
  cbn [foldr]. by rewrite IH.
Qed.

Lemma for_in_trace (v : value) :
  ∃ lines, (for_in v (λ line, print (str line))).2 = Print <$> lines.
Proof.
  destruct (iter v) as [l|] eqn:Hv.
  - exists (str <$> l). rewrite (for_in_prints v l Hv). simpl.
    by rewrite list_fmap_compose.
  - exists []. unfold for_in. by rewrite Hv.
Qed.

End chemistry.

(** X13. When the backend is found and the solver returns a dictionary with
    an energy and an iterable printable, the chemistry notebook asks for the
    statevector simulator, runs the solver once on the dictionary of the
    cell with that backend, then prints the energy line and after it one
    line for each element of printable, in order, and nothing else. *)
Theorem chemistry_notebook_prints_energy_then_lines `{Chemistry.Lib}
    (b : Chemistry.Backend) (r : gmap string Chemistry.value)
    (e p : Chemistry.value) (lines : list Chemistry.value) :
  Chemistry.get_backend "statevector_simulator" = inr b →
  Chemistry.run Chemistry.qiskit_chemistry_dict b = inr r →
  r !! "energy"%string = Some e →
  r !! "printable"%string = Some p →
  Chemistry.iter p = Some lines →
  Chemistry.notebook
  = (inr (),
     [Chemistry.GetBackend "statevector_simulator";
      Chemistry.Run Chemistry.qiskit_chemistry_dict b;
      Chemistry.Print ("Ground state energy: " +:+ Chemistry.str e)]
     ++ (Chemistry.Print ∘ Chemistry.str <$> lines)).
Proof.
  intros Hb Hr He Hp Hl.
  unfold Chemistry.notebook, Chemistry.cell_backend, Chemistry.cell_run,
    Chemistry.cell_energy, Chemistry.cell_printable, Chemistry.getitem,
    Chemistry.call.
  rewrite Hb. simpl. rewrite Hr. simpl. rewrite He, Hp. simpl.
  by rewrite (for_in_prints p lines Hl).
Qed.

Lemma chemistry_notebook_prints_energy_then_lines_witness :
  let lib := Chemistry.toy (inr {[ "energy"%string := Chemistry.VFloat "-1.5";
                                   "printable"%string :=
                                     Chemistry.VList ["a"; "b"]%string ]}) in
  @Chemistry.notebook lib
  = (inr (),
     [Chemistry.GetBackend "statevector_simulator";
      Chemistry.Run Chemistry.qiskit_chemistry_dict
        ("statevector_simulator"%string : @Chemistry.Backend lib);
      Chemistry.Print "Ground state energy: -1.5";
      Chemistry.Print "a"; Chemistry.Print "b"]).
Proof.
  intros lib.
  exact (@chemistry_notebook_prints_energy_then_lines lib
           "statevector_simulator"%string _ (Chemistry.VFloat "-1.5")
           (Chemistry.VList ["a"; "b"]%string) _
           eq_refl eq_refl eq_refl eq_refl eq_refl).
Defined.

(** X14. Whatever the library does, the chemistry notebook asks for one
    backend, the statevector simulator; it runs the solver at most once,
    only when that backend was returned, on the dictionary of the cell; and
    everything after that is printing, so nothing is printed before the
    solver has returned a result. *)
Theorem chemistry_notebook_one_solver_call `{Chemistry.Lib} :
  ∃ calls lines,
    Chemistry.notebook.2
    = Chemistry.GetBackend "statevector_simulator" :: calls
      ++ (Chemistry.Print <$> lines) ∧
    (calls = [] ∧ lines = [] ∨
     ∃ b, Chemistry.get_backend "statevector_simulator" = inr b ∧
          calls = [Chemistry.Run Chemistry.qiskit_chemistry_dict b] ∧
          (lines = [] ∨
           ∃ r, Chemistry.run Chemistry.qiskit_chemistry_dict b = inr r)).
Proof.
  unfold Chemistry.notebook, Chemistry.cell_backend, Chemistry.cell_run,
    Chemistry.cell_energy, Chemistry.cell_printable, Chemistry.getitem,
    Chemistry.call.
  destruct (Chemistry.get_backend _) as [err|b]; simpl.
  { exists [], []. auto. }
  destruct (Chemistry.run _ b) as [err|r] eqn:Hr; simpl.
  { exists [Chemistry.Run Chemistry.qiskit_chemistry_dict b], [].
    split; [done|]. right. exists b. auto. }
  destruct (r !! "energy"%string) as [e|]; simpl.
  2:{ exists [Chemistry.Run Chemistry.qiskit_chemistry_dict b], [].
      split; [done|]. right. exists b. auto. }
  destruct (r !! "printable"%string) as [p|]; simpl.
  2:{ exists [Chemistry.Run Chemistry.qiskit_chemistry_dict b],
        [("Ground state energy: " +:+ Chemistry.str e)%string].
      split; [done|]. right. exists b. eauto. }
  destruct (for_in_trace p) as [lines Hlines]. rewrite Hlines.
  exists [Chemistry.Run Chemistry.qiskit_chemistry_dict b],
    (("Ground state energy: " +:+ Chemistry.str e)%string :: lines).
  split; [done|]. right. exists b. eauto.
Qed.

(** X15. When the solver's result has no energy, the chemistry notebook stops
    with a KeyError after the run and prints nothing, whatever printable
    holds; when it has an energy but no printable, the energy line is
    printed before the KeyError. *)
Theorem chemistry_notebook_missing_key `{Chemistry.Lib}
    (b : Chemistry.Backend) (r : gmap string Chemistry.value) :
  Chemistry.get_backend "statevector_simulator" = inr b →
  Chemistry.run Chemistry.qiskit_chemistry_dict b = inr r →
  (r !! "energy"%string = None →
   Chemistry.notebook
   = (inl Chemistry.KeyError,
      [Chemistry.GetBackend "statevector_simulator";
       Chemistry.Run Chemistry.qiskit_chemistry_dict b])) ∧
  (∀ e, r !! "energy"%string = Some e →
        r !! "printable"%string = None →
        Chemistry.notebook
        = (inl Chemistry.KeyError,
           [Chemistry.GetBackend "statevector_simulator";
            Chemistry.Run Chemistry.qiskit_chemistry_dict b;
            Chemistry.Print
              ("Ground state energy: " +:+ Chemistry.str e)])).
Proof.
  intros Hb Hr.
  unfold Chemistry.notebook, Chemistry.cell_backend, Chemistry.cell_run,
    Chemistry.cell_energy, Chemistry.cell_printable, Chemistry.getitem,
    Chemistry.call.
  rewrite Hb. simpl. rewrite Hr. simpl.
  split; [by intros ->|]. by intros e -> ->.
Qed.

Lemma chemistry_notebook_missing_key_witness :
  let lib1 := Chemistry.toy (inr {[ "printable"%string :=
                                      Chemistry.VList ["a"]%string ]}) in
  let lib2 := Chemistry.toy (inr {[ "energy"%string :=
                                      Chemistry.VFloat "2.0" ]}) in
  @Chemistry.notebook lib1
  = (inl Chemistry.KeyError,
     [Chemistry.GetBackend "statevector_simulator";
      Chemistry.Run Chemistry.qiskit_chemistry_dict
        ("statevector_simulator"%string : @Chemistry.Backend lib1)]) ∧
  @Chemistry.notebook lib2
  = (inl Chemistry.KeyError,
     [Chemistry.GetBackend "statevector_simulator";
      Chemistry.Run Chemistry.qiskit_chemistry_dict
        ("statevector_simulator"%string : @Chemistry.Backend lib2);
      Chemistry.Print "Ground state energy: 2.0"]).
Proof.
  intros lib1 lib2. split.
  - exact (proj1 (@chemistry_notebook_missing_key lib1
                    "statevector_simulator"%string _ eq_refl eq_refl)
             eq_refl).
  - exact (proj2 (@chemistry_notebook_missing_key lib2
                    "statevector_simulator"%string _ eq_refl eq_refl)
             (Chemistry.VFloat "2.0") eq_refl eq_refl).
Defined.
